(** * FORTRANReader: fixed-column records driven by FORTRAN edit descriptors

    A shallow embedding of [FORTRANReader] and [FixedcolumnEntry] from
    [MDAnalysis/core/util.py], with the properties of the format compiler
    and of the record reader.

    Python objects are modelled as follows.
    - [str] is [string], a sequence of 8-bit characters as in Python 2; the
      lines and the format strings are of this type;
    - [int] is [Z];
    - an exception is a value of [exception]; code that may raise lives in
      the error monad [result] = [sum exception] of ExtLib, where
      [raise] is Python's [raise] and [catch] is [try ... except];
    - the [dict] returned by [parse_FORTRAN_format] has a fixed set of keys
      and is a record whose fields hold dynamically typed values [pyval];
    - the builtin [int] on a string is [int_of_str], after the language
      reference;
    - [float] is not modelled: the conversion [float(s)] is a variable of
      the section, so every statement holds whatever [float] accepts;
    - memory is not modelled: [range] and the list of entries have no limit
      of size. *)

From Stdlib Require Import String Ascii ZArith List Lia Bool Sorted.
From ExtLib Require Import Structures.Monad Structures.MonadExc
                           Data.Monads.EitherMonad.
Import ListNotations.
Import MonadNotation.

Local Open Scope string_scope.
Local Open Scope Z_scope.
Local Open Scope monad_scope.

(** ** Characters and the [str] methods used by the source *)

Definition code (c : ascii) : nat := nat_of_ascii c.

Definition between (lo hi : nat) (c : ascii) : bool :=
  (Nat.leb lo (code c) && Nat.leb (code c) hi)%bool.

(** [\d] of [re] on a byte string: the ten ASCII digits. *)
Definition isdigit (c : ascii) : bool := between 48 57 c.

(** [str.isspace] on one character: space, [\t], [\n], [\v], [\f], [\r]. *)
Definition isspace (c : ascii) : bool :=
  (Nat.eqb (code c) 32 || between 9 13 c)%bool.

Definition upper_char (c : ascii) : ascii :=
  if between 97 122 c then ascii_of_nat (code c - 32) else c.

(** [s.upper()] *)
Fixpoint upper (s : string) : string :=
  match s with
  | EmptyString => EmptyString
  | String c s' => String (upper_char c) (upper s')
  end.

Fixpoint lstrip (s : string) : string :=
  match s with
  | EmptyString => EmptyString
  | String c s' => if isspace c then lstrip s' else s
  end.

Fixpoint rstrip (s : string) : string :=
  match s with
  | EmptyString => EmptyString
  | String c s' =>
      match rstrip s' with
      | EmptyString => if isspace c then EmptyString else String c EmptyString
      | t => String c t
      end
  end.

(** [s.strip()] *)
Definition str_strip (s : string) : string := rstrip (lstrip s).

(** [s.split(sep)] for a one-character separator: never the empty list. *)
Fixpoint split (sep : ascii) (s : string) : list string :=
  match s with
  | EmptyString => [EmptyString]
  | String c s' =>
      if Ascii.eqb c sep then EmptyString :: split sep s'
      else match split sep s' with
           | [] => [String c EmptyString]
           | t :: ts => String c t :: ts
           end
  end.

(** [sep.join(l)] *)
Fixpoint join (sep : string) (l : list string) : string :=
  match l with
  | [] => EmptyString
  | [t] => t
  | t :: ts => t ++ sep ++ join sep ts
  end.

(** [i] as a bound of the slice of a sequence of length [len]: a negative
    bound counts from the end, and every bound is clipped to [0..len]. *)
Definition slice_bound (len i : Z) : Z :=
  if i <? 0 then Z.max (i + len) 0 else Z.min i len.

(** [line[start:stop]] *)
Definition slice (line : string) (start stop : Z) : string :=
  let len := Z.of_nat (String.length line) in
  let lo := slice_bound len start in
  let hi := slice_bound len stop in
  substring (Z.to_nat lo) (Z.to_nat (hi - lo)) line.

(** ** The builtin [int] on a string, base 10 *)

Definition digit_value (c : ascii) : Z := Z.of_nat (code c - 48).

Fixpoint digits_acc (acc : Z) (s : string) : option Z :=
  match s with
  | EmptyString => Some acc
  | String c s' =>
      if isdigit c then digits_acc (10 * acc + digit_value c) s' else None
  end.

(** The value of a non-empty string of decimal digits. *)
Definition digits_value (s : string) : option Z :=
  match s with
  | EmptyString => None
  | _ => digits_acc 0 s
  end.

(** [int(s)]: surrounding white space is dropped, then an optional sign
    and at least one decimal digit must make up the whole text; [None] is
    the [ValueError] of the builtin. *)
Definition int_of_str (s : string) : option Z :=
  match str_strip s with
  | EmptyString => None
  | String c ds =>
      if Ascii.eqb c "+" then digits_value ds
      else if Ascii.eqb c "-" then option_map Z.opp (digits_value ds)
      else digits_value (String c ds)
  end.

(** ** Exceptions and dynamically typed values *)

(** The objects a descriptor [dict] holds. *)
Inductive pyval : Type :=
| PyNone
| PyInt (z : Z)
| PyStr (s : string).

(** The arguments a [ValueError] is built from in this module. *)
Inductive value_error : Type :=
| unrecognized_FORTRAN_format (edit_descriptor : string)
    (* "unrecognized FORTRAN format %r" % edit_descriptor *)
| invalid_literal (s : string)
    (* raised by int(s) and float(s) *)
| failed_to_read_convert (start stop : Z) (typespecifier : pyval) (raw : string).
    (* ("%r: Failed to read&convert %r", self, line[start:stop]) *)

Inductive exception : Type :=
| ValueError (args : value_error)
| TypeError
| AttributeError
| KeyError.

Definition result : Type -> Type := sum exception.

Abbreviation Ok := (@inr exception _).
Abbreviation Raise := (@inl exception _).

(** [try body except ValueError: handler] *)
Definition except_ValueError {A} (body : result A)
                             (handler : value_error -> result A) : result A :=
  catch body (fun e => match e with
                       | ValueError args => handler args
                       | _ => raise e
                       end).

(** [[f(x) for x in l]]: left to right, the first exception ends it. *)
Fixpoint comprehension {A B} (f : A -> result B) (l : list A) : result (list B) :=
  match l with
  | [] => ret []
  | x :: l' => y <- f x ;; ys <- comprehension f l' ;; ret (y :: ys)
  end.

Definition pyval_eqb (a b : pyval) : bool :=
  match a, b with
  | PyNone, PyNone => true
  | PyInt x, PyInt y => Z.eqb x y
  | PyStr s, PyStr t => String.eqb s t
  | _, _ => false
  end.

(** [int(v)] for a value of a descriptor *)
Definition py_int (v : pyval) : result Z :=
  match v with
  | PyNone => raise TypeError
  | PyInt z => ret z
  | PyStr s => match int_of_str s with
               | Some z => ret z
               | None => raise (ValueError (invalid_literal s))
               end
  end.

(** [s * n] on strings: [n] copies of [s] *)
Fixpoint str_repeat (n : nat) (s : string) : string :=
  match n with
  | O => EmptyString
  | S n' => s ++ str_repeat n' s
  end.

(** [a * b] *)
Definition py_mul (a b : pyval) : result pyval :=
  match a, b with
  | PyInt x, PyInt y => ret (PyInt (x * y))
  | PyInt n, PyStr s | PyStr s, PyInt n => ret (PyStr (str_repeat (Z.to_nat n) s))
  | _, _ => raise TypeError
  end.

(** [start + v] where [start] is an [int] *)
Definition py_add (start : Z) (v : pyval) : result Z :=
  match v with
  | PyInt z => ret (start + z)
  | _ => raise TypeError
  end.

(** [range(v)] as the number of its elements *)
Definition py_range (v : pyval) : result nat :=
  match v with
  | PyInt n => ret (Z.to_nat n)
  | _ => raise TypeError
  end.

(** ** The pattern [FORTRAN_format_regex]

    [(?P<repeat>\d+?)(?P<format>[IFEAX])(?P<numfmt>(?P<length>\d+)(\.(?P<decimals>\d+))?)?]

    [match] anchors the pattern at the start of the text and lets it end
    anywhere.  A digit is never a format letter, so the lazy [\d+?] ends up
    with the whole run of leading digits, which must be non empty and must
    be followed by one of the five letters.  Everything after the letter is
    optional and greedy. *)

(** The named groups of a match; an optional group that took no part in the
    match is [None]. *)
Record match_object : Type := {
  g_repeat : string;
  g_format : string;
  g_numfmt : option string;
  g_length : option string;
  g_decimals : option string
}.

(** The longest prefix of digits, and what follows it. *)
Fixpoint span_digits (s : string) : string * string :=
  match s with
  | EmptyString => (EmptyString, EmptyString)
  | String c s' =>
      if isdigit c
      then let (ds, rest) := span_digits s' in (String c ds, rest)
      else (EmptyString, s)
  end.

(** [[IFEAX]] *)
Definition is_format_letter (c : ascii) : bool :=
  existsb (Ascii.eqb c) ["I"; "F"; "E"; "A"; "X"]%char.

(** [(?P<numfmt>(?P<length>\d+)(\.(?P<decimals>\d+))?)?] on the text after
    the letter: the groups numfmt, length and decimals. *)
Definition match_numfmt (s : string)
  : option string * option string * option string :=
  match span_digits s with
  | (EmptyString, _) => (None, None, None)
  | (len, EmptyString) => (Some len, Some len, None)
  | (len, String c s') =>
      if Ascii.eqb c "." then
        match span_digits s' with
        | (EmptyString, _) => (Some len, Some len, None)
        | (dec, _) => (Some (len ++ "." ++ dec), Some len, Some dec)
        end
      else (Some len, Some len, None)
  end.

(** [_FORTRAN_format_pattern.match(s)]; [None] is Python's [None]. *)
Definition FORTRAN_format_match (s : string) : option match_object :=
  match span_digits s with
  | (String d ds, String c rest) =>
      if is_format_letter c then
        let '(numfmt, len, dec) := match_numfmt rest in
        Some {| g_repeat := String d ds;
                g_format := String c EmptyString;
                g_numfmt := numfmt;
                g_length := len;
                g_decimals := dec |}
      else None
  | _ => None
  end.

(** ** The language of the pattern *)

(** The regular expressions the pattern is made of, and their language. *)
Inductive regex : Type :=
| Class (p : ascii -> bool)
| Cat (r1 r2 : regex)
| Plus (r : regex)
| Opt (r : regex).

Inductive matches : regex -> string -> Prop :=
| matches_class p c :
    p c = true -> matches (Class p) (String c EmptyString)
| matches_cat r1 r2 s1 s2 :
    matches r1 s1 -> matches r2 s2 -> matches (Cat r1 r2) (s1 ++ s2)
| matches_once r s :
    matches r s -> matches (Plus r) s
| matches_more r s1 s2 :
    matches r s1 -> matches (Plus r) s2 -> matches (Plus r) (s1 ++ s2)
| matches_absent r :
    matches (Opt r) EmptyString
| matches_present r s :
    matches r s -> matches (Opt r) s.

Definition digits : regex := Plus (Class isdigit).

Definition numfmt_regex : regex :=
  Opt (Cat digits (Opt (Cat (Class (Ascii.eqb ".")) digits))).

Definition FORTRAN_format_regex : regex :=
  Cat digits (Cat (Class is_format_letter) numfmt_regex).

Definition opt_text (g : option string) : string :=
  match g with
  | Some t => t
  | None => EmptyString
  end.

(** The text a match object covers. *)
Definition matched_text (m : match_object) : string :=
  g_repeat m ++ g_format m ++ opt_text (g_numfmt m).

Definition starts_with (p : ascii -> bool) (s : string) : bool :=
  match s with
  | EmptyString => false
  | String c _ => p c
  end.

Fixpoint all_space (s : string) : bool :=
  match s with
  | EmptyString => true
  | String c s' => isspace c && all_space s'
  end.

(** The last character of a text passes the test. *)
Fixpoint ends_with (p : ascii -> bool) (s : string) : bool :=
  match s with
  | EmptyString => false
  | String c EmptyString => p c
  | String _ s' => ends_with p s'
  end.

(** ** The descriptor [dict]

    [m.groupdict()] has the keys repeat, format, numfmt, length and
    decimals; [parse_FORTRAN_format] overwrites three of them and adds
    totallength, which is absent ([None] here) before that. *)

Module Descriptor.
Record t : Type := {
  repeat : pyval;
  format : pyval;
  numfmt : pyval;
  length : pyval;
  decimals : pyval;
  totallength : option pyval
}.

Definition set_repeat (d : t) (v : pyval) : t :=
  {| repeat := v; format := format d; numfmt := numfmt d;
     length := length d; decimals := decimals d;
     totallength := totallength d |}.

Definition set_length (d : t) (v : pyval) : t :=
  {| repeat := repeat d; format := format d; numfmt := numfmt d;
     length := v; decimals := decimals d;
     totallength := totallength d |}.

Definition set_decimals (d : t) (v : pyval) : t :=
  {| repeat := repeat d; format := format d; numfmt := numfmt d;
     length := length d; decimals := v;
     totallength := totallength d |}.

Definition set_totallength (d : t) (v : pyval) : t :=
  {| repeat := repeat d; format := format d; numfmt := numfmt d;
     length := length d; decimals := decimals d;
     totallength := Some v |}.

(** [d['totallength']] *)
Definition get_totallength (d : t) : result pyval :=
  match totallength d with
  | Some v => ret v
  | None => raise KeyError
  end.
End Descriptor.

Definition group (g : option string) : pyval :=
  match g with
  | Some s => PyStr s
  | None => PyNone
  end.

(** [m.groupdict()], where [m] may be [None] *)
Definition groupdict (m : option match_object) : result Descriptor.t :=
  match m with
  | None => raise AttributeError
  | Some m =>
      ret {| Descriptor.repeat := PyStr (g_repeat m);
             Descriptor.format := PyStr (g_format m);
             Descriptor.numfmt := group (g_numfmt m);
             Descriptor.length := group (g_length m);
             Descriptor.decimals := group (g_decimals m);
             Descriptor.totallength := None |}
  end.

(** The body of the loop over the keys repeat, length and decimals:
<<
    try:
        d[k] = int(d[k])
    except ValueError:   # catches ''
        d[k] = 0
    except TypeError:    # keep None
        pass
>>
    as the new value of [d[k]]. *)
Definition int_or_keep (v : pyval) : result pyval :=
  catch (z <- py_int v ;; ret (PyInt z))
        (fun e => match e with
                  | ValueError _ => ret (PyInt 0)
                  | TypeError => ret v
                  | _ => raise e
                  end).

(** [FORTRANReader.parse_FORTRAN_format] *)
Definition parse_FORTRAN_format (edit_descriptor : string)
  : result Descriptor.t :=
  m <- match FORTRAN_format_match (upper edit_descriptor) with
       | None =>
           (* try: m = match("1" + ...)   except: raise ValueError(...) *)
           catch (ret (FORTRAN_format_match ("1" ++ upper edit_descriptor)))
                 (fun _ => raise (ValueError
                                    (unrecognized_FORTRAN_format edit_descriptor)))
       | m => ret m
       end ;;
  d <- groupdict m ;;
  let d := if pyval_eqb (Descriptor.repeat d) (PyStr "")
           then Descriptor.set_repeat d (PyInt 1) else d in
  let d := if pyval_eqb (Descriptor.format d) (PyStr "X")
           then Descriptor.set_length d (PyInt 1) else d in
  v <- int_or_keep (Descriptor.repeat d) ;;
  let d := Descriptor.set_repeat d v in
  v <- int_or_keep (Descriptor.length d) ;;
  let d := Descriptor.set_length d v in
  v <- int_or_keep (Descriptor.decimals d) ;;
  let d := Descriptor.set_decimals d v in
  t <- py_mul (Descriptor.repeat d) (Descriptor.length d) ;;
  ret (Descriptor.set_totallength d t).

(** ** [FixedcolumnEntry] *)

(** The three functions the class converts with. *)
Inductive convertor_fn : Type :=
| int_fn      (* int *)
| float_fn    (* float *)
| strip_fn.   (* strip *)

(** [FixedcolumnEntry.convertors] *)
Definition convertors : list (string * convertor_fn) :=
  [("I", int_fn); ("F", float_fn); ("E", float_fn); ("A", strip_fn)].

(** [table[key]] *)
Fixpoint getitem {V} (table : list (string * V)) (key : pyval) : result V :=
  match table with
  | [] => raise KeyError
  | (k, v) :: table' =>
      if pyval_eqb (PyStr k) key then ret v else getitem table' key
  end.

Record FixedcolumnEntry : Type := {
  start : Z;
  stop : Z;
  typespecifier : pyval;
  convertor : convertor_fn
}.

(** [FixedcolumnEntry.__init__] *)
Definition FixedcolumnEntry_init (start stop : Z) (typespecifier : pyval)
  : result FixedcolumnEntry :=
  c <- getitem convertors typespecifier ;;
  ret {| start := start; stop := stop;
         typespecifier := typespecifier; convertor := c |}.

(** [FixedcolumnEntry.__len__] *)
Definition FixedcolumnEntry_len (self : FixedcolumnEntry) : Z :=
  stop self - start self.

(** ** [FORTRANReader] *)

Record FORTRANReader : Type := {
  fmt : list string;
  entries : list FixedcolumnEntry
}.

(** [for x in l: body], threading the variables the body assigns. *)
Fixpoint for_each {A S} (body : S -> A -> result S) (l : list A) (s : S)
  : result S :=
  match l with
  | [] => ret s
  | x :: l' => s' <- body s x ;; for_each body l' s'
  end.

(** The inner loop of [__init__], [n] rounds of
<<
    stop = start + d['length']
    self.entries.append(FixedcolumnEntry(start,stop,d['format']))
    start = stop
>> *)
Fixpoint append_entries (n : nat) (d : Descriptor.t)
                        (start : Z) (entries : list FixedcolumnEntry)
  : result (Z * list FixedcolumnEntry) :=
  match n with
  | O => ret (start, entries)
  | S n' =>
      stop <- py_add start (Descriptor.length d) ;;
      e <- FixedcolumnEntry_init start stop (Descriptor.format d) ;;
      append_entries n' d stop (entries ++ [e])
  end.

(** The body of the outer loop of [__init__] on the pair of [start] and
    [self.entries]. *)
Definition layout_step (st : Z * list FixedcolumnEntry) (d : Descriptor.t)
  : result (Z * list FixedcolumnEntry) :=
  let (start, entries) := st in
  if negb (pyval_eqb (Descriptor.format d) (PyStr "X")) then
    n <- py_range (Descriptor.repeat d) ;;
    append_entries n d start entries
  else
    t <- Descriptor.get_totallength d ;;
    start' <- py_add start t ;;
    ret (start', entries).

(** [FORTRANReader.__init__] *)
Definition FORTRANReader_init (fmt : string) : result FORTRANReader :=
  let self_fmt := split "," fmt in
  descriptors <- comprehension parse_FORTRAN_format self_fmt ;;
  st <- for_each layout_step descriptors (0, []) ;;
  ret {| fmt := self_fmt; entries := snd st |}.

(** [FORTRANReader.__len__] *)
Definition FORTRANReader_len (self : FORTRANReader) : Z :=
  Z.of_nat (List.length (entries self)).

(** [FORTRANReader.__repr__]; the class name is [FORTRANReader]. *)
Definition FORTRANReader_repr (self : FORTRANReader) : string :=
  "FORTRANReader" ++ "(" ++ join "," (fmt self) ++ ")".

(** ** The layout in the words of the specification

    A descriptor token is [repeat? code (width ('.' decimals)?)?], read
    here straight off the token: the repeat count is the number written
    before the type code, 1 when none is written; the type code is the
    letter, in upper case; the width is the number written after it, and 1
    for the skip code [X]. *)

Definition number (digits : string) : Z :=
  match digits_value digits with
  | Some z => z
  | None => 0
  end.

Definition token_repeat (token : string) : Z :=
  match fst (span_digits token) with
  | EmptyString => 1
  | digits => number digits
  end.

Definition token_type_code (token : string) : option ascii :=
  match snd (span_digits token) with
  | EmptyString => None
  | String c _ => Some (upper_char c)
  end.

Definition token_is_skip (token : string) : bool :=
  match token_type_code token with
  | Some c => Ascii.eqb c "X"
  | None => false
  end.

Definition token_width (token : string) : Z :=
  if token_is_skip token then 1
  else match snd (span_digits token) with
       | EmptyString => 0
       | String _ rest => number (fst (span_digits rest))
       end.

Definition token_total_width (token : string) : Z :=
  token_repeat token * token_width token.

(** A Column Entry as the specification has it: start, stop and type code. *)
Definition column : Type := Z * Z * option ascii.

(** [n] fields of one width and type, each starting where the previous one
    stopped. *)
Fixpoint spec_fields (n : nat) (cursor width : Z) (type_code : option ascii)
  : list column :=
  match n with
  | O => []
  | S n' => (cursor, cursor + width, type_code)
            :: spec_fields n' (cursor + width) width type_code
  end.

(** The running cursor over the tokens from left to right: a skip token
    only advances it, every other token emits its fields at it. *)
Fixpoint spec_layout (cursor : Z) (tokens : list string) : list column :=
  match tokens with
  | [] => []
  | token :: tokens' =>
      (if token_is_skip token then []
       else spec_fields (Z.to_nat (token_repeat token)) cursor
                        (token_width token) (token_type_code token))
      ++ spec_layout (cursor + token_total_width token) tokens'
  end.

(** The sum of the repeat counts of the tokens that are not skips. *)
Fixpoint spec_entry_count (tokens : list string) : Z :=
  match tokens with
  | [] => 0
  | token :: tokens' =>
      (if token_is_skip token then 0 else token_repeat token)
      + spec_entry_count tokens'
  end.

(** The type code of an entry, when its specifier is a one-letter string. *)
Definition type_code_of (typespecifier : pyval) : option ascii :=
  match typespecifier with
  | PyStr (String c EmptyString) => Some c
  | _ => None
  end.

Definition column_of (e : FixedcolumnEntry) : column :=
  (start e, stop e, type_code_of (typespecifier e)).

(** The match object [parse_FORTRAN_format] goes on with: that of the token
    in upper case or, failing that, of the token after "1". *)
Definition descriptor_match (edit_descriptor : string) : option match_object :=
  match FORTRAN_format_match (upper edit_descriptor) with
  | None => FORTRAN_format_match ("1" ++ upper edit_descriptor)
  | m => m
  end.

(** ** Closed forms used by the proofs *)

Fixpoint all_digits (s : string) : bool :=
  match s with
  | EmptyString => true
  | String c s' => isdigit c && all_digits s'
  end.

Definition int_of_group (g : option string) : pyval :=
  match g with
  | Some ds => PyInt (number ds)
  | None => PyNone
  end.

(** The descriptor [parse_FORTRAN_format] makes of a match object. *)
Definition descriptor_of_match (m : match_object) : result Descriptor.t :=
  if String.eqb (g_format m) "X" then
    Ok {| Descriptor.repeat := PyInt (number (g_repeat m));
          Descriptor.format := PyStr (g_format m);
          Descriptor.numfmt := group (g_numfmt m);
          Descriptor.length := PyInt 1;
          Descriptor.decimals := int_of_group (g_decimals m);
          Descriptor.totallength := Some (PyInt (number (g_repeat m) * 1)) |}
  else
    match g_length m with
    | None => Raise TypeError
    | Some l =>
        Ok {| Descriptor.repeat := PyInt (number (g_repeat m));
              Descriptor.format := PyStr (g_format m);
              Descriptor.numfmt := group (g_numfmt m);
              Descriptor.length := PyInt (number l);
              Descriptor.decimals := int_of_group (g_decimals m);
              Descriptor.totallength :=
                Some (PyInt (number (g_repeat m) * number l)) |}
    end.

Definition digits_group (g : option string) : Prop :=
  match g with
  | Some ds => all_digits ds = true /\ ds <> EmptyString
  | None => True
  end.

(** What the pattern guarantees of the groups of a match. *)
Definition well_formed_match (m : match_object) : Prop :=
  all_digits (g_repeat m) = true /\ g_repeat m <> EmptyString /\
  digits_group (g_length m) /\ digits_group (g_decimals m).

(** The match object of a token, from the token itself. *)
Definition token_match (tok : string) : option match_object :=
  let (rep, rest) := span_digits tok in
  match rest with
  | EmptyString => None
  | String c rest' =>
      if is_format_letter (upper_char c) then
        let '(numfmt, len, dec) := match_numfmt (upper rest') in
        Some {| g_repeat := match rep with EmptyString => "1" | _ => rep end;
                g_format := String (upper_char c) EmptyString;
                g_numfmt := numfmt; g_length := len; g_decimals := dec |}
      else None
  end.

(** A descriptor agrees with the reading of its token. *)
Record parsed (tok : string) (d : Descriptor.t) : Prop := {
  parsed_code : exists c, token_type_code tok = Some c /\
                          is_format_letter c = true /\
                          Descriptor.format d = PyStr (String c EmptyString);
  parsed_repeat : Descriptor.repeat d = PyInt (token_repeat tok);
  parsed_length : Descriptor.length d = PyInt (token_width tok);
  parsed_totallength :
    Descriptor.totallength d = Some (PyInt (token_total_width tok));
  parsed_repeat_nonneg : 0 <= token_repeat tok;
  parsed_width_nonneg : 0 <= token_width tok
}.

(** The convertor of an entry is the one its type specifier selects. *)
Definition consistent (e : FixedcolumnEntry) : Prop :=
  getitem convertors (typespecifier e) = Ok (convertor e).

(** The sum of the total widths of the tokens, skips included. *)
Fixpoint spec_total_width (tokens : list string) : Z :=
  match tokens with
  | [] => 0
  | token :: tokens' => token_total_width token + spec_total_width tokens'
  end.

Definition col_start (c : column) : Z := fst (fst c).
Definition col_stop (c : column) : Z := snd (fst c).

(** A column lies in the window from [lo] to [hi]. *)
Definition within (lo hi : Z) (c : column) : Prop :=
  lo <= col_start c /\ col_start c <= col_stop c /\ col_stop c <= hi.

Definition before (a b : column) : Prop := col_stop a <= col_start b.

(** [strip(s)] of the module; [str(s)] of a string is the string. *)
Definition strip (s : string) : string := str_strip s.

(** [t] is [s] with the white space at its two ends stripped: what is cut
    off at either end is white space, and [t] neither starts nor ends with
    white space. *)
Definition stripped (s t : string) : Prop :=
  exists pre post,
    s = pre ++ t ++ post /\
    all_space pre = true /\ all_space post = true /\
    starts_with isspace t = false /\ ends_with isspace t = false.

(** The reader of "I3,A2" and its two entries, for the examples. *)
Definition sample_I3 : FixedcolumnEntry :=
  {| start := 0; stop := 3; typespecifier := PyStr "I"; convertor := int_fn |}.

Definition sample_A2 : FixedcolumnEntry :=
  {| start := 3; stop := 5; typespecifier := PyStr "A";
     convertor := strip_fn |}.

Definition sample_I3_A2 : FORTRANReader :=
  {| fmt := ["I3"; "A2"]; entries := [sample_I3; sample_A2] |}.

(** A conversion to run the examples with where the text has no float
    field: it reads what [int] reads.  No statement depends on it. *)
Definition float_of_int_text (s : string) : option Z := int_of_str s.

(** ** Which format strings compile

    A token compiles when, after the digits it may start with, it goes on
    with one of the five letters, in either case, and then with a digit
    unless the letter is X.  Whatever follows is not looked at. *)

Definition token_compiles (token : string) : bool :=
  match snd (span_digits token) with
  | EmptyString => false
  | String c rest =>
      is_format_letter (upper_char c)
      && (Ascii.eqb (upper_char c) "X" || starts_with isdigit rest)
  end.

(** What [parse_FORTRAN_format] raises on a token that does not compile:
    [TypeError] when only the width is missing, [AttributeError] when the
    pattern does not match at all. *)
Definition token_exception (token : string) : exception :=
  match snd (span_digits token) with
  | EmptyString => AttributeError
  | String c _ =>
      if is_format_letter (upper_char c) then TypeError else AttributeError
  end.

(** The entries of a reader, or the exception there is instead. *)
Definition entries_of (x : result FORTRANReader)
  : result (list FixedcolumnEntry) :=
  match x with
  | inl e => inl e
  | inr r => inr (entries r)
  end.

Fixpoint sum_Z (l : list Z) : Z :=
  match l with
  | [] => 0
  | x :: l' => x + sum_Z l'
  end.

(** The columns the skip tokens pass over. *)
Fixpoint spec_skipped (tokens : list string) : Z :=
  match tokens with
  | [] => 0
  | token :: tokens' =>
      (if token_is_skip token then token_total_width token else 0)
      + spec_skipped tokens'
  end.

(** ** File names: [filename] and [greedy_splitext]

    Both go through [os.path.splitext], and [greedy_splitext] through
    [os.path.split]; these library functions are arguments of the model.
    What the library documents of [splitext] is that the two parts it
    returns make up the path again. *)

(** [os.path.extsep] *)
Definition extsep : string := ".".

(** [root + ext == p] for the parts [os.path.splitext(p)] returns *)
Definition splits_in_two (splitext : string -> string * string) : Prop :=
  forall p, fst (splitext p) ++ snd (splitext p) = p.

(** [ext] after [if not ext.startswith(os.path.extsep): ext = os.path.extsep + ext] *)
Definition with_extsep (ext : string) : string :=
  if negb (prefix extsep ext) then extsep ++ ext else ext.

(** [filename(name, ext, keep)] for a string [name]; [None] is the default
    of [ext] and [false] that of [keep]. *)
Definition filename (splitext : string -> string * string)
                    (name : string) (ext : option string) (keep : bool)
  : string :=
  match ext with
  | None => name
  | Some ext =>
      let ext := with_extsep ext in
      let (root, origext) := splitext name in
      if (Nat.eqb (String.length origext) 0 || negb keep)%bool
      then root ++ ext
      else name
  end.

(** The loop of [greedy_splitext], at most [fuel] rounds of
<<
    root, ext = os.path.splitext(root)
    extension = ext + extension
    if not ext:
        break
>>
    [None] when the rounds do not reach the [break]. *)
Fixpoint greedy_loop (splitext : string -> string * string) (fuel : nat)
                     (root extension : string) : option (string * string) :=
  match fuel with
  | O => None
  | S fuel' =>
      let (root', ext) := splitext root in
      let extension' := ext ++ extension in
      match ext with
      | EmptyString => Some (root', extension')
      | _ => greedy_loop splitext fuel' root' extension'
      end
  end.

(** [greedy_splitext(p)] *)
Definition greedy_splitext (splitext split_path : string -> string * string)
                           (fuel : nat) (p : string)
  : option (string * string) :=
  let (path, root) := split_path p in
  greedy_loop splitext fuel root EmptyString.

(** *** The functions of [posixpath] *)

(** [s.rfind(c)] for a character [c]: the index of its last occurrence,
    -1 when there is none. *)
Fixpoint rfind (c : ascii) (s : string) : Z :=
  match s with
  | EmptyString => -1
  | String d s' =>
      let i := rfind c s' in
      if 0 <=? i then i + 1
      else if Ascii.eqb d c then 0 else -1
  end.

(** The loop of [genericpath._splitext] that skips the leading dots, [n]
    indexes from [filenameIndex] on: whether one of them holds a character
    other than the dot. *)
Fixpoint beyond_leading_dots (n : nat) (p : string) (filenameIndex : nat)
  : bool :=
  match n with
  | O => false
  | S n' =>
      match get filenameIndex p with
      | Some c =>
          if negb (Ascii.eqb c ".") then true
          else beyond_leading_dots n' p (S filenameIndex)
      | None => false
      end
  end.

(** [posixpath.splitext(p)], which is
    [genericpath._splitext(p, '/', None, '.')] *)
Definition posix_splitext (p : string) : string * string :=
  let sepIndex := rfind "/" p in
  let dotIndex := rfind "." p in
  if (sepIndex <? dotIndex)
     && beyond_leading_dots (Z.to_nat (dotIndex - (sepIndex + 1))) p
                            (Z.to_nat (sepIndex + 1))
  then (slice p 0 dotIndex, slice p dotIndex (Z.of_nat (String.length p)))
  else (p, EmptyString).

(** [s.rstrip(c)] for one character *)
Fixpoint rstrip_char (c : ascii) (s : string) : string :=
  match s with
  | EmptyString => EmptyString
  | String d s' =>
      match rstrip_char c s' with
      | EmptyString => if Ascii.eqb d c then EmptyString else String d EmptyString
      | t => String d t
      end
  end.

(** [posixpath.split(p)] *)
Definition posix_split (p : string) : string * string :=
  let i := rfind "/" p + 1 in
  let head := slice p 0 i in
  let tail := slice p i (Z.of_nat (String.length p)) in
  let head :=
    if negb (String.eqb head EmptyString)
       && negb (String.eqb head (str_repeat (String.length head) "/"))
    then rstrip_char "/" head else head in
  (head, tail).

(** ** Objects that may be iterated: [iterable] and [asiterable]

    An object, as far as [iterable] looks at it: a [str], a list, or any
    other object, of which it asks whether it has an attribute [next] and
    what [len] does on it. *)

#[warnings="-register-all"]
Inductive pyobject : Type :=
| obj_str (s : string)
| obj_list (items : list pyobject)
| obj_other (has_next : bool) (len : result Z).

(** [iterable(obj)] *)
Definition iterable (obj : pyobject) : result bool :=
  match obj with
  | obj_str _ => ret false               (* type(obj) is str *)
  | obj_list _ => ret true               (* no next, len(obj) returns *)
  | obj_other has_next len =>
      if has_next then ret true
      else catch (_ <- len ;; ret true)
                 (fun e => match e with
                           | TypeError => ret false
                           | _ => raise e
                           end)
  end.

(** [asiterable(obj)] *)
Definition asiterable (obj : pyobject) : result pyobject :=
  b <- iterable obj ;;
  ret (if negb b then obj_list [obj] else obj).

(** ** Opening files: [_get_stream], [anyopen] and [openany]

    The files are outside of the program.  Every call on them, opening a
    file by one of the three functions of [handlers], [readline] and
    [close] on a stream, is an event; an environment answers each call,
    knowing the events so far, with a result or with an exception; and the
    functions run in a monad that carries the events. *)

Module AnyOpen.

(** [bz2.BZ2File], [gzip.open] and [file] *)
Inductive handler : Type :=
| BZ2File
| gzip_open
| file.

(** A stream, with what [anyopen] asks of it: the attributes [next],
    [readline] and [write] it may have, and its [name]. *)
Record stream : Type := {
  stream_id : nat;
  has_next : bool;
  has_readline : bool;
  has_write : bool;
  name : option string
}.

(** The argument [datasource]: the path of a file or an object. *)
Inductive datasource : Type :=
| path (p : string)
| object (s : stream).

(** The exceptions; their messages are left out. *)
Inductive error : Type :=
| IOError
| NotImplementedError
| OtherError (name : string).

Inductive event : Type :=
| ev_open (openfunc : handler) (ds : datasource) (mode : string)
          (answer : error + stream)
| ev_readline (s : stream) (answer : error + unit)
| ev_close (s : stream) (answer : error + unit).

Record environment : Type := {
  env_open : list event -> handler -> datasource -> string -> error + stream;
  env_readline : list event -> stream -> error + unit;
  env_close : list event -> stream -> error + unit
}.

(** A computation: from the events so far to a result or an exception, and
    the events after it. *)
Definition io (A : Type) : Type := list event -> (error + A) * list event.

#[export] Instance Monad_io : Monad io := {
  ret := fun _ x tr => (inr x, tr);
  bind := fun _ _ c f tr =>
            match c tr with
            | (inl e, tr') => (inl e, tr')
            | (inr x, tr') => f x tr'
            end
}.

#[export] Instance Exception_io : MonadExc error io := {
  raise := fun _ e tr => (inl e, tr);
  catch := fun _ c h tr =>
             match c tr with
             | (inl e, tr') => h e tr'
             | r => r
             end
}.

(** [openfunc(ds, mode)] *)
Definition call_open (env : environment) (openfunc : handler)
                     (ds : datasource) (mode : string) : io stream :=
  fun tr => let answer := env_open env tr openfunc ds mode in
            (answer, (tr ++ [ev_open openfunc ds mode answer])%list).

(** [s.readline()] *)
Definition call_readline (env : environment) (s : stream) : io unit :=
  fun tr => let answer := env_readline env tr s in
            (answer, (tr ++ [ev_readline s answer])%list).

(** [s.close()] *)
Definition call_close (env : environment) (s : stream) : io unit :=
  fun tr => let answer := env_close env tr s in
            (answer, (tr ++ [ev_close s answer])%list).

(** [try: body   except IOError: handler] *)
Definition except_IOError {A} (body handler : io A) : io A :=
  catch body (fun e => match e with
                       | IOError => handler
                       | _ => raise e
                       end).

(** [_get_stream(filename, openfunction, mode)]; [None] is Python's
    [None]. *)
Definition _get_stream (env : environment) (filename : datasource)
                       (openfunction : handler) (mode : string)
  : io (option stream) :=
  opened <- except_IOError
              (s <- call_open env openfunction filename mode ;; ret (Some s))
              (ret None) ;;
  match opened with
  | None => ret None                                  (* return None *)
  | Some s =>
      except_IOError
        (call_readline env s ;;
         call_close env s ;;
         s' <- call_open env openfunction filename "r" ;;
         ret (Some s'))
        (call_close env s ;;
         ret None)
  end.

(** [handlers] *)
Definition handlers : list (string * handler) :=
  [("bz2", BZ2File); ("gz", gzip_open); ("", file)].

(** [handlers[ext]] *)
Fixpoint handler_of (table : list (string * handler)) (ext : string)
  : io handler :=
  match table with
  | [] => raise (OtherError "KeyError")
  | (k, h) :: table' =>
      if String.eqb k ext then ret h else handler_of table' ext
  end.

(** The loop of [anyopen] over the extensions, with its [break]: the
    stream it leaves in [stream]. *)
Fixpoint probe (env : environment) (datasource : datasource) (mode : string)
               (exts : list string) : io (option stream) :=
  match exts with
  | [] => ret None
  | ext :: exts' =>
      openfunc <- handler_of handlers ext ;;
      s <- _get_stream env datasource openfunc mode ;;
      match s with
      | Some _ => ret s
      | None => probe env datasource mode exts'
      end
  end.

(** ['(%s)' % stream.name] *)
Definition name_in_brackets (s : stream) : io datasource :=
  match name s with
  | Some n => ret (path ("(" ++ n ++ ")"))
  | None => raise (OtherError "AttributeError")
  end.

(** The data source as a stream, when [hasattr(datasource, attribute)]
    holds: a string has none of the attributes asked for. *)
Definition stream_with (attribute : stream -> bool) (ds : datasource)
  : option stream :=
  match ds with
  | path _ => None
  | object s => if attribute s then Some s else None
  end.

(** [os.path.splitext(filename)] on the data source: an object that is not
    a string has no [rfind]. *)
Definition splitext_of (splitext : string -> string * string)
                       (filename : datasource) : io (string * string) :=
  match filename with
  | path p => ret (splitext p)
  | object _ => raise (OtherError "AttributeError")
  end.

(** [ext] after
<<
    if ext.startswith('.'):
        ext = ext[1:]
    if not ext in ('bz2', 'gz'):
        ext = ''   # anything else but bz2 or gz is just a normal file
>> *)
Definition compression_of (ext : string) : string :=
  let ext := if prefix "." ext
             then slice ext 1 (Z.of_nat (String.length ext)) else ext in
  if negb (String.eqb ext "bz2" || String.eqb ext "gz") then EmptyString
  else ext.

(** [anyopen(datasource, mode)]: the stream and the file name *)
Definition anyopen (env : environment)
                   (splitext : string -> string * string)
                   (ds : datasource) (mode : string)
  : io (stream * datasource) :=
  if prefix "r" mode then
    match stream_with (fun s => has_next s || has_readline s)%bool ds with
    | Some s =>
        filename <- name_in_brackets s ;;
        ret (s, filename)
    | None =>
        found <- probe env ds mode ["bz2"; "gz"; ""] ;;
        match found with
        | Some s => ret (s, ds)
        | None => raise IOError
        end
    end
  else if prefix "w" mode then
    match stream_with has_write ds with
    | Some s =>
        filename <- name_in_brackets s ;;
        ret (s, filename)
    | None =>
        parts <- splitext_of splitext ds ;;
        openfunc <- handler_of handlers (compression_of (snd parts)) ;;
        s <- call_open env openfunc ds mode ;;
        ret (s, ds)
    end
  else raise NotImplementedError.

(** [try: body   finally: final] *)
Definition try_finally {A} (body : io A) (final : io unit) : io A :=
  fun tr =>
    let (r, tr') := body tr in
    match final tr' with
    | (inl e, tr'') => (inl e, tr'')
    | (inr _, tr'') => (r, tr'')
    end.

(** [with openany(datasource, mode) as stream: body]: the stream is closed
    when the body is left, also by an exception. *)
Definition openany {A} (env : environment)
                   (splitext : string -> string * string)
                   (ds : datasource) (mode : string)
                   (body : stream -> io A) : io A :=
  opened <- anyopen env splitext ds mode ;;
  let s := fst opened in
  try_finally (body s) (call_close env s).

(** The streams that are open after the events, of those that were open
    before or were opened by them. *)
Fixpoint still_open (opened : list stream) (tr : list event) : list stream :=
  match tr with
  | [] => opened
  | ev_open _ _ _ (inr s) :: tr' => still_open (opened ++ [s])%list tr'
  | ev_close s (inr _) :: tr' =>
      still_open
        (filter (fun s' => negb (Nat.eqb (stream_id s') (stream_id s))) opened)
        tr'
  | _ :: tr' => still_open opened tr'
  end.

End AnyOpen.

(** ** What is asked of the environment *)

(** [readline] raises nothing but [IOError]. *)
Definition readline_raises_IOError (env : AnyOpen.environment) : Prop :=
  forall tr s e, AnyOpen.env_readline env tr s = inl e -> e = AnyOpen.IOError.

(** [close] returns. *)
Definition close_returns (env : AnyOpen.environment) : Prop :=
  forall tr s, AnyOpen.env_close env tr s = inr tt.

Definition handler_eqb (h h' : AnyOpen.handler) : bool :=
  match h, h' with
  | AnyOpen.BZ2File, AnyOpen.BZ2File
  | AnyOpen.gzip_open, AnyOpen.gzip_open
  | AnyOpen.file, AnyOpen.file => true
  | _, _ => false
  end.

(** The functions that open a file in the events, in the order of their
    calls, calls in a row of one function counting once. *)
Definition attempt (h : AnyOpen.handler) (hs : list AnyOpen.handler)
  : list AnyOpen.handler :=
  match hs with
  | h' :: _ => if handler_eqb h h' then hs else h :: hs
  | [] => [h]
  end.

Fixpoint attempts (tr : list AnyOpen.event) : list AnyOpen.handler :=
  match tr with
  | [] => []
  | AnyOpen.ev_open h _ _ _ :: tr' => attempt h (attempts tr')
  | _ :: tr' => attempts tr'
  end.

(** The handler [anyopen] takes for writing to a file with extension
    [ext], in the words of its comment: anything else but bz2 or gz is
    just a normal file. *)
Definition handler_for_extension (ext : string) : AnyOpen.handler :=
  if (String.eqb ext ".bz2" || String.eqb ext "bz2")%bool then AnyOpen.BZ2File
  else if (String.eqb ext ".gz" || String.eqb ext "gz")%bool
       then AnyOpen.gzip_open
       else AnyOpen.file.

(** A run of [_get_stream] that returned [None]. *)
Definition returned_None
           (run : (AnyOpen.error + option AnyOpen.stream)
                  * list AnyOpen.event) : bool :=
  match fst run with
  | inr None => true
  | _ => false
  end.

(** What [anyopen] makes of the last result of [_get_stream]: the stream
    with the file name, the [IOError] of its own when there is no stream,
    or the exception that came out of [_get_stream]. *)
Definition stream_or_IOError
           (ds : AnyOpen.datasource)
           (r : AnyOpen.error + option AnyOpen.stream)
  : AnyOpen.error + AnyOpen.stream * AnyOpen.datasource :=
  match r with
  | inr (Some s) => inr (s, ds)
  | inr None => inl AnyOpen.IOError
  | inl e => inl e
  end.

(** A body of a [with] statement that opens and closes nothing. *)
Definition leaves_streams_alone {A}
           (body : AnyOpen.stream -> AnyOpen.io A) : Prop :=
  forall s tr, exists events,
    snd (body s tr) = (tr ++ events)%list /\
    forall opened, AnyOpen.still_open opened events = opened.

(** A file system for the examples: a file opens with each of the three
    functions, and only a stream of [file] reads a line. *)
Definition sample_stream (tr : list AnyOpen.event) (h : AnyOpen.handler)
  : AnyOpen.stream :=
  {| AnyOpen.stream_id := List.length tr;
     AnyOpen.has_next := true; AnyOpen.has_readline := true;
     AnyOpen.has_write := false;
     AnyOpen.name := match h with
                     | AnyOpen.file => Some "plain"
                     | _ => None
                     end |}.

Definition sample_env : AnyOpen.environment :=
  {| AnyOpen.env_open := fun tr h _ _ => inr (sample_stream tr h);
     AnyOpen.env_readline :=
       fun _ s => match AnyOpen.name s with
                  | Some _ => inr tt
                  | None => inl AnyOpen.IOError
                  end;
     AnyOpen.env_close := fun _ _ => inr tt |}.

(** A file system where every file opens and reads with every function,
    and one where no file opens. *)
Definition plain_env : AnyOpen.environment :=
  {| AnyOpen.env_open := fun tr _ _ _ => inr (sample_stream tr AnyOpen.file);
     AnyOpen.env_readline := fun _ _ => inr tt;
     AnyOpen.env_close := fun _ _ => inr tt |}.

Definition missing_env : AnyOpen.environment :=
  {| AnyOpen.env_open := fun _ _ _ _ => inl AnyOpen.IOError;
     AnyOpen.env_readline := fun _ _ => inr tt;
     AnyOpen.env_close := fun _ _ => inr tt |}.

Section Reading.

(** Python's [float] and the builtin [float(s)] on a string, with [None]
    for its [ValueError]. *)
Variable pyfloat : Type.
Variable float_of_str : string -> option pyfloat.

(** The values [read] returns. *)
Inductive value : Type :=
| VInt (z : Z)
| VFloat (x : pyfloat)
| VStr (s : string).

(** [self.convertor(s)] *)
Definition convert (c : convertor_fn) (s : string) : result value :=
  match c with
  | int_fn =>
      match int_of_str s with
      | Some z => ret (VInt z)
      | None => raise (ValueError (invalid_literal s))
      end
  | float_fn =>
      match float_of_str s with
      | Some x => ret (VFloat x)
      | None => raise (ValueError (invalid_literal s))
      end
  | strip_fn => ret (VStr (strip s))
  end.

(** [FixedcolumnEntry.read] *)
Definition FixedcolumnEntry_read (self : FixedcolumnEntry) (line : string)
  : result value :=
  except_ValueError
    (convert (convertor self) (slice line (start self) (stop self)))
    (fun _ => raise (ValueError
                       (failed_to_read_convert
                          (start self) (stop self) (typespecifier self)
                          (slice line (start self) (stop self))))).

(** [FORTRANReader.read] *)
Definition FORTRANReader_read (self : FORTRANReader) (line : string)
  : result (list value) :=
  comprehension (fun e => FixedcolumnEntry_read e line) (entries self).

(** [FORTRANReader.number_of_matches] *)
Definition number_of_matches (self : FORTRANReader) (line : string)
  : result Z :=
  for_each
    (fun matches e =>
       except_ValueError
         (_ <- FixedcolumnEntry_read e line ;; ret (matches + 1))
         (fun _ => ret matches))
    (entries self) 0.

(** [e.read(line)] returns a value: it does not raise. *)
Definition reads (line : string) (e : FixedcolumnEntry) : bool :=
  match FixedcolumnEntry_read e line with
  | inr _ => true
  | inl _ => false
  end.

(** The exception [e.read(line)] raises when the conversion fails. *)
Definition read_error (line : string) (e : FixedcolumnEntry) : exception :=
  ValueError (failed_to_read_convert (start e) (stop e) (typespecifier e)
                                     (slice line (start e) (stop e))).

(** A numeric field ([int] or [float]) whose text does not convert. *)
Definition malformed_numeric (line : string) (e : FixedcolumnEntry) : Prop :=
  (convertor e = int_fn /\
   int_of_str (slice line (start e) (stop e)) = None) \/
  (convertor e = float_fn /\
   float_of_str (slice line (start e) (stop e)) = None).

(** The type of a value is the one the type code asks for: [int] for I,
    [float] for F and E, [str] for A. *)
Definition value_of_code (type_code : option ascii) (v : value) : Prop :=
  match type_code, v with
  | Some c, VInt _ => c = "I"%char
  | Some c, VFloat _ => c = "F"%char \/ c = "E"%char
  | Some c, VStr _ => c = "A"%char
  | None, _ => False
  end.

(** ** Running the model *)

Example split_format :
  split "," "2I10,2X,A8" = ["2I10"; "2X"; "A8"] /\
  split "," "" = [""] /\ split "," "A8," = ["A8"; ""].
Proof. repeat split. Qed.

Example int_of_str_samples :
  int_of_str "       123" = Some 123 /\ int_of_str " -7 " = Some (-7) /\
  int_of_str "+007" = Some 7 /\ int_of_str "1 2" = None /\
  int_of_str "4x6" = None /\ int_of_str "" = None /\ int_of_str "   " = None.
Proof. repeat split. Qed.

Example slice_samples :
  slice "abcdef" 1 3 = "bc" /\ slice "abc" 2 10 = "c" /\
  slice "abc" 5 10 = "" /\ slice "abcdef" (-3) (-1) = "de" /\
  slice "" 0 8 = "".
Proof. repeat split. Qed.

Example strip_samples :
  strip "hello   " = "hello" /\ strip "  a b  " = "a b" /\ strip "   " = "".
Proof. repeat split. Qed.

Example match_3F20_10 :
  FORTRAN_format_match "3F20.10" =
  Some {| g_repeat := "3"; g_format := "F"; g_numfmt := Some "20.10";
          g_length := Some "20"; g_decimals := Some "10" |}.
Proof. reflexivity. Qed.

Example match_needs_a_repeat : FORTRAN_format_match "F20.10" = None.
Proof. reflexivity. Qed.

Example parse_f20_10 :
  parse_FORTRAN_format "f20.10" =
  Ok {| Descriptor.repeat := PyInt 1; Descriptor.format := PyStr "F";
        Descriptor.numfmt := PyStr "20.10"; Descriptor.length := PyInt 20;
        Descriptor.decimals := PyInt 10;
        Descriptor.totallength := Some (PyInt 20) |}.
Proof. reflexivity. Qed.

Example parse_3X5 :
  parse_FORTRAN_format "3X5" =
  Ok {| Descriptor.repeat := PyInt 3; Descriptor.format := PyStr "X";
        Descriptor.numfmt := PyStr "5"; Descriptor.length := PyInt 1;
        Descriptor.decimals := PyNone;
        Descriptor.totallength := Some (PyInt 3) |}.
Proof. reflexivity. Qed.

Example parse_failures :
  parse_FORTRAN_format "" = Raise AttributeError /\
  parse_FORTRAN_format " 2X" = Raise AttributeError /\
  parse_FORTRAN_format "L5" = Raise AttributeError /\
  parse_FORTRAN_format "A" = Raise TypeError.
Proof. repeat split. Qed.

(** The format of the docstring of the class lays out the ten fields the
    usage example unpacks. *)
Example docstring_format :
  exists r,
    FORTRANReader_init "2I10,2X,A8,2X,A8,3F20.10,2X,A8,2X,A8,F20.10" = Ok r /\
    FORTRANReader_len r = 10 /\
    map (fun e => (start e, stop e)) (entries r)
    = [(0, 10); (10, 20); (22, 30); (32, 40); (40, 60); (60, 80); (80, 100);
       (102, 110); (112, 120); (120, 140)].
Proof. eexists. repeat split. Qed.

(** ** Characters *)

Ltac by_cases_on_char c :=
  destruct c as [[] [] [] [] [] [] [] []]; try discriminate; try reflexivity.

Lemma upper_char_digit c : isdigit c = true -> upper_char c = c.
Proof. by_cases_on_char c. Qed.

Lemma isdigit_upper_char c : isdigit (upper_char c) = isdigit c.
Proof. by_cases_on_char c. Qed.

Lemma format_letter_not_digit c : is_format_letter c = true -> isdigit c = false.
Proof. by_cases_on_char c. Qed.

Lemma digit_not_space c : isdigit c = true -> isspace c = false.
Proof. by_cases_on_char c. Qed.

Lemma digit_not_sign c :
  isdigit c = true -> Ascii.eqb c "+" = false /\ Ascii.eqb c "-" = false.
Proof. by_cases_on_char c; intros _; split; reflexivity. Qed.

Lemma digit_value_nonneg c : 0 <= digit_value c.
Proof. unfold digit_value. lia. Qed.

(** ** Runs of digits *)

Lemma span_digits_all_digits s : all_digits (fst (span_digits s)) = true.
Proof.
  induction s as [|c s IH]; simpl; [reflexivity|].
  destruct (isdigit c) eqn:Hc; [|reflexivity].
  destruct (span_digits s) as [ds rest]. simpl in *. now rewrite Hc.
Qed.

Lemma span_digits_upper s :
  span_digits (upper s) = (fst (span_digits s), upper (snd (span_digits s))).
Proof.
  induction s as [|c s IH]; simpl; [reflexivity|].
  rewrite isdigit_upper_char. destruct (isdigit c) eqn:Hc.
  - rewrite IH. destruct (span_digits s) as [ds rest]. simpl.
    now rewrite (upper_char_digit c Hc).
  - reflexivity.
Qed.

Lemma rstrip_digits s : all_digits s = true -> rstrip s = s.
Proof.
  induction s as [|c s IH]; simpl; [reflexivity|].
  intros H. apply andb_true_iff in H as [Hc Hs]. rewrite (IH Hs).
  destruct s; [now rewrite (digit_not_space c Hc)|reflexivity].
Qed.

Lemma str_strip_digits s : all_digits s = true -> str_strip s = s.
Proof.
  intros H. unfold str_strip.
  replace (lstrip s) with s; [now apply rstrip_digits|].
  destruct s as [|c s]; [reflexivity|]. simpl in *.
  apply andb_true_iff in H as [Hc _]. now rewrite (digit_not_space c Hc).
Qed.

Lemma digits_acc_some s : forall acc,
  all_digits s = true -> 0 <= acc ->
  exists z, digits_acc acc s = Some z /\ 0 <= z.
Proof.
  induction s as [|c s IH]; cbn [digits_acc all_digits]; intros acc H Hacc.
  - now exists acc.
  - apply andb_true_iff in H as [Hc Hs]. rewrite Hc.
    apply IH; [assumption|]. pose proof (digit_value_nonneg c). lia.
Qed.

Lemma digits_value_some s :
  all_digits s = true -> s <> EmptyString ->
  digits_value s = Some (number s) /\ 0 <= number s.
Proof.
  intros H Hne. unfold number.
  destruct s as [|c s]; [congruence|].
  destruct (digits_acc_some (String c s) 0 H) as [z [Hz Hpos]];
    [apply Z.le_refl|].
  unfold digits_value. rewrite Hz. now split.
Qed.

(** [int] reads a run of digits as the number it writes. *)
Lemma int_of_str_digits s :
  all_digits s = true -> s <> EmptyString ->
  int_of_str s = Some (number s) /\ 0 <= number s.
Proof.
  intros H Hne. destruct (digits_value_some s H Hne) as [Hv Hpos].
  split; [|assumption]. unfold int_of_str. rewrite (str_strip_digits s H).
  destruct s as [|c s]; [congruence|].
  simpl in H. apply andb_true_iff in H as [Hc _].
  destruct (digit_not_sign c Hc) as [Hplus Hminus].
  now rewrite Hplus, Hminus.
Qed.

(** ** The pattern on a token *)

Lemma match_upper tok :
  FORTRAN_format_match (upper tok) =
  match span_digits tok with
  | (String d ds, String c rest) =>
      if is_format_letter (upper_char c) then
        let '(numfmt, len, dec) := match_numfmt (upper rest) in
        Some {| g_repeat := String d ds;
                g_format := String (upper_char c) EmptyString;
                g_numfmt := numfmt; g_length := len; g_decimals := dec |}
      else None
  | _ => None
  end.
Proof.
  unfold FORTRAN_format_match. rewrite span_digits_upper.
  destruct (span_digits tok) as [[|d ds] [|c rest]]; reflexivity.
Qed.

Lemma match_retry tok :
  FORTRAN_format_match ("1" ++ upper tok) =
  match span_digits tok with
  | (ds, String c rest) =>
      if is_format_letter (upper_char c) then
        let '(numfmt, len, dec) := match_numfmt (upper rest) in
        Some {| g_repeat := String "1" ds;
                g_format := String (upper_char c) EmptyString;
                g_numfmt := numfmt; g_length := len; g_decimals := dec |}
      else None
  | _ => None
  end.
Proof.
  unfold FORTRAN_format_match. cbn [append span_digits].
  change (isdigit "1") with true. cbv iota.
  rewrite span_digits_upper.
  destruct (span_digits tok) as [ds [|c rest]]; reflexivity.
Qed.

Lemma match_numfmt_well_formed s :
  digits_group (snd (fst (match_numfmt s))) /\ digits_group (snd (match_numfmt s)).
Proof.
  unfold match_numfmt.
  pose proof (span_digits_all_digits s) as Hl.
  destruct (span_digits s) as [[|l ls] [|c rest]]; simpl in *; auto.
  - repeat split; auto; discriminate.
  - pose proof (span_digits_all_digits rest) as Hd.
    destruct (Ascii.eqb c ".");
      [destruct (span_digits rest) as [[|d ds] rest']|]; simpl in *;
      repeat split; auto; discriminate.
Qed.

Lemma match_numfmt_length s :
  snd (fst (match_numfmt s)) =
  match fst (span_digits s) with
  | EmptyString => None
  | l => Some l
  end.
Proof.
  unfold match_numfmt.
  destruct (span_digits s) as [[|l ls] [|c rest]]; simpl; auto.
  destruct (Ascii.eqb c "."); [|reflexivity].
  destruct (span_digits rest) as [[|d ds] rest']; reflexivity.
Qed.

Lemma token_match_well_formed tok m :
  token_match tok = Some m -> well_formed_match m.
Proof.
  unfold token_match. pose proof (span_digits_all_digits tok) as Hrep.
  destruct (span_digits tok) as [rep [|c rest]]; [discriminate|].
  destruct (is_format_letter (upper_char c)); [|discriminate].
  pose proof (match_numfmt_well_formed (upper rest)) as [Hl Hd].
  destruct (match_numfmt (upper rest)) as [[numfmt len] dec].
  intros [= <-]. simpl in *. unfold well_formed_match. simpl.
  destruct rep; repeat split; auto; discriminate.
Qed.

(** ** The language of the pattern *)

(** The matcher agrees with the pattern read as a regular expression: a
    match covers a prefix that is in its language, the longest such prefix,
    and there is no match only when no prefix is in the language. *)

Lemma digits_matches t :
  matches digits t <-> all_digits t = true /\ t <> EmptyString.
Proof.
  split.
  - unfold digits. intros H. remember (Plus (Class isdigit)) as r eqn:Hr.
    induction H as [| | r s H _ | r s1 s2 H1 _ H2 IH | |]; try discriminate;
      injection Hr as ->.
    + inversion H; subst. cbn. split; [now rewrite H1|discriminate].
    + inversion H1; subst. destruct (IH eq_refl) as [Hd _]. cbn.
      split; [|discriminate].
      match goal with Hc : isdigit _ = true |- _ => now rewrite Hc end.
  - intros [Hd Hne]. induction t as [|c t IH]; [congruence|].
    cbn in Hd. apply andb_true_iff in Hd as [Hc Ht].
    destruct t as [|c' t'].
    + apply matches_once. now constructor.
    + apply (matches_more _ (String c EmptyString) (String c' t')).
      * now constructor.
      * apply IH; [assumption|discriminate].
Qed.

Lemma span_digits_app s :
  s = fst (span_digits s) ++ snd (span_digits s).
Proof.
  induction s as [|c s IH]; cbn [span_digits]; [reflexivity|].
  destruct (isdigit c); [|reflexivity].
  destruct (span_digits s) as [ds rest]. cbn in *. now rewrite <- IH.
Qed.

Lemma span_digits_rest s : starts_with isdigit (snd (span_digits s)) = false.
Proof.
  induction s as [|c s IH]; cbn [span_digits]; [reflexivity|].
  destruct (isdigit c) eqn:Hc; [|cbn; exact Hc].
  destruct (span_digits s) as [ds rest]. exact IH.
Qed.

Lemma span_digits_unique t u :
  all_digits t = true -> starts_with isdigit u = false ->
  span_digits (t ++ u) = (t, u).
Proof.
  intros Ht Hu. induction t as [|c t IH]; cbn [append].
  - destruct u as [|c u]; [reflexivity|]. cbn in *. now rewrite Hu.
  - cbn in Ht. apply andb_true_iff in Ht as [Hc Ht]. cbn [span_digits].
    rewrite Hc, (IH Ht). reflexivity.
Qed.

Lemma append_assoc (a b c : string) : (a ++ b) ++ c = a ++ b ++ c.
Proof. induction a as [|x a IH]; cbn [append]; [reflexivity|now rewrite IH]. Qed.

Lemma append_nil_r (a : string) : a ++ "" = a.
Proof. induction a as [|x a IH]; cbn [append]; [reflexivity|now rewrite IH]. Qed.

Lemma length_append (a b : string) :
  String.length (a ++ b) = (String.length a + String.length b)%nat.
Proof. induction a as [|x a IH]; cbn; [reflexivity|now rewrite IH]. Qed.

Lemma matches_class_inv p s :
  matches (Class p) s -> exists c, s = String c EmptyString /\ p c = true.
Proof. inversion 1; subst. eauto. Qed.

Lemma matches_cat_inv r1 r2 s :
  matches (Cat r1 r2) s ->
  exists s1 s2, s = s1 ++ s2 /\ matches r1 s1 /\ matches r2 s2.
Proof. inversion 1; subst. eauto. Qed.

Lemma matches_opt_inv r s :
  matches (Opt r) s -> s = EmptyString \/ matches r s.
Proof. inversion 1; subst; auto. Qed.

(** A run of digits at the start of a text is the start of its longest
    run of digits. *)
Lemma digit_prefix l u :
  all_digits l = true ->
  exists l', fst (span_digits (l ++ u)) = l ++ l'.
Proof.
  induction l as [|c l IH]; cbn [append]; intros H.
  - eexists. reflexivity.
  - cbn in H. apply andb_true_iff in H as [Hc Hl].
    destruct (IH Hl) as [l' Hl']. exists l'.
    cbn [span_digits]. rewrite Hc.
    destruct (span_digits (l ++ u)) as [ds rest]. cbn in *. now rewrite Hl'.
Qed.

Lemma match_numfmt_in_language s :
  let '(numfmt, len, dec) := match_numfmt s in
  matches numfmt_regex (opt_text numfmt) /\
  exists tail, s = opt_text numfmt ++ tail.
Proof.
  unfold match_numfmt, numfmt_regex.
  pose proof (span_digits_app s) as Hs.
  pose proof (span_digits_all_digits s) as Hd.
  destruct (span_digits s) as [[|l ls] rest]; cbn [fst snd opt_text] in *.
  - split; [constructor|]. now exists s.
  - assert (Hl : matches digits (String l ls))
      by (apply digits_matches; split; [assumption|discriminate]).
    assert (Hplain : matches (Opt (Cat digits
                        (Opt (Cat (Class (Ascii.eqb ".")) digits))))
                       (String l ls)).
    { apply matches_present. rewrite <- (append_nil_r (String l ls)).
      apply matches_cat; [assumption|constructor]. }
    destruct rest as [|c rest]; [split; [assumption|now exists ""]|].
    destruct (Ascii.eqb_spec c ".") as [->|Hc];
      [|split; [assumption|now exists (String c rest)]].
    pose proof (span_digits_app rest) as Hr.
    pose proof (span_digits_all_digits rest) as Hrd.
    destruct (span_digits rest) as [[|d ds] rest']; cbn [fst snd opt_text] in *;
      [split; [assumption|now exists (String "."%char rest)]|].
    split.
    + apply matches_present. apply matches_cat; [assumption|].
      apply matches_present.
      apply (matches_cat _ _ (String "."%char EmptyString) (String d ds)).
      * now constructor.
      * apply digits_matches. split; [assumption|discriminate].
    + exists rest'. rewrite Hs at 1. rewrite Hr at 1.
      now rewrite !append_assoc.
Qed.

(** A match covers a prefix of the text, and that prefix is in the language
    of the pattern. *)
Lemma match_in_language s m :
  FORTRAN_format_match s = Some m ->
  matches FORTRAN_format_regex (matched_text m) /\
  exists tail, s = matched_text m ++ tail.
Proof.
  unfold FORTRAN_format_match, matched_text, FORTRAN_format_regex.
  pose proof (span_digits_app s) as Hs.
  pose proof (span_digits_all_digits s) as Hd.
  destruct (span_digits s) as [[|d ds] [|c rest]]; try discriminate.
  destruct (is_format_letter c) eqn:Hc; [|discriminate].
  pose proof (match_numfmt_in_language rest) as Hn.
  destruct (match_numfmt rest) as [[numfmt len] dec].
  destruct Hn as [Hn [tail Htail]].
  intros [= <-]. cbn [g_repeat g_format g_numfmt fst snd] in *. split.
  - apply matches_cat.
    + apply digits_matches. split; [assumption|discriminate].
    + apply (matches_cat _ _ (String c EmptyString)); [now constructor|assumption].
  - exists tail. rewrite Hs at 1. rewrite Htail at 1.
    now rewrite !append_assoc.
Qed.

(** When there is no match, no prefix of the text is in the language of the
    pattern. *)
Lemma no_match_no_prefix s :
  FORTRAN_format_match s = None ->
  forall text tail, s = text ++ tail -> ~ matches FORTRAN_format_regex text.
Proof.
  intros Hnone text tail -> H.
  apply matches_cat_inv in H as (rep & t & -> & Hrep & H).
  apply matches_cat_inv in H as (l & n & -> & Hl & _).
  apply matches_class_inv in Hl as (c & -> & Hc).
  apply digits_matches in Hrep as [Hd Hne].
  revert Hnone. unfold FORTRAN_format_match.
  rewrite !append_assoc. cbn [append].
  rewrite (span_digits_unique rep (String c (n ++ tail)) Hd)
    by (cbn; now apply format_letter_not_digit).
  destruct rep; [congruence|]. rewrite Hc.
  destruct (match_numfmt (n ++ tail)) as [[numfmt len] dec]. discriminate.
Qed.

(** The optional part takes as much of the text as the pattern allows. *)
Lemma match_numfmt_longest s text tail :
  s = text ++ tail -> matches numfmt_regex text ->
  (String.length text
   <= String.length (opt_text (fst (fst (match_numfmt s)))))%nat.
Proof.
  intros Hs H. apply matches_opt_inv in H as [->|H]; [cbn; lia|].
  apply matches_cat_inv in H as (l & o & -> & Hl & Ho).
  apply digits_matches in Hl as [Hl Hlne].
  rewrite append_assoc in Hs.
  destruct (digit_prefix l (o ++ tail) Hl) as [l' Hl'].
  rewrite <- Hs in Hl'.
  apply matches_opt_inv in Ho as [->|Ho].
  - (* digits only *)
    unfold match_numfmt. destruct (span_digits s) as [L R]. cbn [fst] in Hl'.
    subst L. rewrite append_nil_r.
    destruct (l ++ l') as [|x xs] eqn:Hx.
    { destruct l; [congruence|discriminate]. }
    assert (Hlen : (String.length l <= String.length (String x xs))%nat)
      by (rewrite <- Hx; rewrite length_append; lia).
    destruct R as [|c R]; [exact Hlen|].
    destruct (Ascii.eqb c "."); [|exact Hlen].
    destruct (span_digits R) as [[|d ds] R']; cbn [fst opt_text];
      [exact Hlen|].
    rewrite length_append. lia.
  - (* digits, a dot and digits *)
    apply matches_cat_inv in Ho as (dot & d & -> & Hdot & Hd).
    apply matches_class_inv in Hdot as (c & -> & Hc).
    apply digits_matches in Hd as [Hd Hdne].
    assert (c = "."%char) by (symmetry; now apply Ascii.eqb_eq). subst c.
    rewrite !append_assoc in Hs. cbn [append] in Hs.
    unfold match_numfmt. rewrite Hs.
    rewrite (span_digits_unique l (String "." (d ++ tail)) Hl eq_refl).
    destruct l as [|x xs]; [congruence|].
    change (Ascii.eqb "." ".") with true. cbv iota.
    destruct (digit_prefix d tail Hd) as [d' Hd'].
    destruct (span_digits (d ++ tail)) as [D R']. cbn [fst] in Hd'. subst D.
    destruct (d ++ d') as [|y ys] eqn:Hy.
    { destruct d; [congruence|discriminate]. }
    cbn [fst opt_text]. rewrite <- Hy.
    rewrite !length_append. cbn [String.length]. rewrite ?length_append. lia.
Qed.

(** Of the prefixes of the text in the language of the pattern, the match
    covers the longest. *)
Lemma match_longest s m text tail :
  FORTRAN_format_match s = Some m ->
  s = text ++ tail -> matches FORTRAN_format_regex text ->
  (String.length text <= String.length (matched_text m))%nat.
Proof.
  intros Hm -> H.
  apply matches_cat_inv in H as (rep & t & -> & Hrep & H).
  apply matches_cat_inv in H as (l & n & -> & Hl & Hn).
  apply matches_class_inv in Hl as (c & -> & Hc).
  apply digits_matches in Hrep as [Hd Hne].
  revert Hm. unfold FORTRAN_format_match, matched_text.
  rewrite !append_assoc. cbn [append].
  rewrite (span_digits_unique rep (String c (n ++ tail)) Hd)
    by (cbn; now apply format_letter_not_digit).
  destruct rep as [|x xs]; [congruence|]. rewrite Hc.
  pose proof (match_numfmt_longest (n ++ tail) n tail eq_refl Hn) as Hlong.
  destruct (match_numfmt (n ++ tail)) as [[numfmt len] dec].
  intros [= <-]. cbn [g_repeat g_format g_numfmt fst] in *.
  rewrite !length_append. cbn [String.length]. lia.
Qed.

Lemma match_numfmt_groups s :
  let '(numfmt, len, dec) := match_numfmt s in
  match numfmt with
  | None => len = None /\ dec = None
  | Some t =>
      exists l, len = Some l /\
                match dec with
                | None => t = l
                | Some d => t = l ++ "." ++ d
                end
  end.
Proof.
  unfold match_numfmt.
  destruct (span_digits s) as [[|l ls] [|x rest]]; eauto.
  destruct (Ascii.eqb x "."); eauto.
  destruct (span_digits rest) as [[|d ds] r]; eauto.
Qed.

(** The named groups are the pieces of the matched text. *)
Lemma match_groups s m :
  FORTRAN_format_match s = Some m ->
  well_formed_match m /\
  (exists c, g_format m = String c EmptyString /\ is_format_letter c = true) /\
  match g_numfmt m with
  | None => g_length m = None /\ g_decimals m = None
  | Some t =>
      exists l, g_length m = Some l /\
                match g_decimals m with
                | None => t = l
                | Some d => t = l ++ "." ++ d
                end
  end.
Proof.
  unfold FORTRAN_format_match.
  pose proof (span_digits_all_digits s) as Hd.
  destruct (span_digits s) as [[|d ds] [|c rest]]; try discriminate.
  destruct (is_format_letter c) eqn:Hc; [|discriminate].
  pose proof (match_numfmt_well_formed rest) as [Hl Hdec].
  pose proof (match_numfmt_groups rest) as Hg.
  destruct (match_numfmt rest) as [[numfmt len] dec].
  intros [= <-]. unfold well_formed_match.
  cbn [g_repeat g_format g_numfmt g_length g_decimals fst snd] in *.
  repeat split; eauto. discriminate.
Qed.

(** ** [strip] and slices *)

Lemma lstrip_spec s :
  exists pre, s = pre ++ lstrip s /\ all_space pre = true /\
              starts_with isspace (lstrip s) = false.
Proof.
  induction s as [|c s (pre & Hs & Hpre & Hst)]; cbn [lstrip].
  - exists "". auto.
  - destruct (isspace c) eqn:Hc.
    + exists (String c pre). cbn. rewrite Hc, Hpre, <- Hs. auto.
    + exists "". cbn. auto.
Qed.

Lemma rstrip_spec s :
  exists post, s = rstrip s ++ post /\ all_space post = true /\
               ends_with isspace (rstrip s) = false.
Proof.
  induction s as [|c s (post & Hs & Hpost & Hend)]; cbn [rstrip].
  - exists "". auto.
  - destruct (rstrip s) as [|x t] eqn:Hr.
    + destruct (isspace c) eqn:Hc.
      * exists (String c post). cbn. rewrite Hc, Hpost. cbn in Hs.
        rewrite <- Hs. auto.
      * exists post. cbn. cbn in Hs. subst post. rewrite Hc. auto.
    + exists post. repeat split; auto.
      change (String c s = String c (String x t ++ post)). now f_equal.
Qed.

Lemma rstrip_keeps_start s :
  starts_with isspace s = false -> starts_with isspace (rstrip s) = false.
Proof.
  destruct s as [|c s]; cbn [rstrip starts_with]; [auto|]. intros Hc.
  destruct (rstrip s); [now rewrite Hc|exact Hc].
Qed.

(** [strip] removes white space at both ends, and nothing else. *)
Lemma str_strip_spec s :
  exists pre post,
    s = pre ++ str_strip s ++ post /\
    all_space pre = true /\ all_space post = true /\
    starts_with isspace (str_strip s) = false /\
    ends_with isspace (str_strip s) = false.
Proof.
  unfold str_strip.
  destruct (lstrip_spec s) as (pre & Hs & Hpre & Hst).
  destruct (rstrip_spec (lstrip s)) as (post & Hl & Hpost & Hend).
  exists pre, post. rewrite <- Hl. repeat split; auto.
  now apply rstrip_keeps_start.
Qed.

(** The characters of [line[start:stop]], for bounds that are not negative:
    those of the line from [start] up to [stop] or to the end. *)
Lemma slice_get line start stop (i : nat) :
  0 <= start -> 0 <= stop ->
  get i (slice line start stop) =
  if Z.of_nat i <? Z.min stop (Z.of_nat (String.length line)) - start
  then get (i + Z.to_nat start) line
  else None.
Proof.
  intros Hstart Hstop. unfold slice, slice_bound.
  set (len := Z.of_nat (String.length line)).
  assert (Hlen : 0 <= len) by (unfold len; lia).
  replace (start <? 0) with false by (symmetry; apply Z.ltb_ge; lia).
  replace (stop <? 0) with false by (symmetry; apply Z.ltb_ge; lia).
  destruct (Z.of_nat i <? Z.min stop len - start) eqn:Hi.
  - apply Z.ltb_lt in Hi. rewrite substring_correct1 by lia. f_equal. lia.
  - apply Z.ltb_ge in Hi. apply substring_correct2. lia.
Qed.

(** A negative bound counts from the end of the line. *)
Lemma slice_negative_start line start stop :
  start < 0 ->
  slice line start stop
  = slice line (Z.max (start + Z.of_nat (String.length line)) 0) stop.
Proof.
  intros H. unfold slice. f_equal; [f_equal|do 2 f_equal];
    unfold slice_bound;
    (replace (start <? 0) with true by (symmetry; apply Z.ltb_lt; lia));
    destruct (Z.max (start + Z.of_nat (String.length line)) 0 <? 0) eqn:E;
    try (apply Z.ltb_lt in E); try (apply Z.ltb_ge in E); lia.
Qed.

Lemma slice_negative_stop line start stop :
  stop < 0 ->
  slice line start stop
  = slice line start (Z.max (stop + Z.of_nat (String.length line)) 0).
Proof.
  intros H. unfold slice. do 3 f_equal.
  unfold slice_bound.
  (replace (stop <? 0) with true by (symmetry; apply Z.ltb_lt; lia)).
  destruct (Z.max (stop + Z.of_nat (String.length line)) 0 <? 0) eqn:E;
    try (apply Z.ltb_lt in E); try (apply Z.ltb_ge in E); lia.
Qed.

(** ** [parse_FORTRAN_format] *)

Lemma int_or_keep_digits ds :
  all_digits ds = true -> ds <> EmptyString ->
  int_or_keep (PyStr ds) = Ok (PyInt (number ds)).
Proof.
  intros H Hne. unfold int_or_keep, py_int.
  destruct (int_of_str_digits ds H Hne) as [-> _]. reflexivity.
Qed.

Lemma int_or_keep_group g :
  digits_group g -> int_or_keep (group g) = Ok (int_of_group g).
Proof.
  destruct g as [ds|]; simpl; intros H.
  - destruct H. now apply int_or_keep_digits.
  - reflexivity.
Qed.

Ltac descriptor_fields :=
  cbv beta iota zeta delta
      [Descriptor.set_repeat Descriptor.set_length Descriptor.set_decimals
       Descriptor.set_totallength
       Descriptor.repeat Descriptor.format Descriptor.length
       Descriptor.decimals Descriptor.numfmt Descriptor.totallength].

Lemma parse_with_match tok m :
  FORTRAN_format_match (upper tok) = Some m \/
  (FORTRAN_format_match (upper tok) = None /\
   FORTRAN_format_match ("1" ++ upper tok) = Some m) ->
  well_formed_match m ->
  parse_FORTRAN_format tok = descriptor_of_match m.
Proof.
  intros Hm (Hrep & Hne & Hlen & Hdec).
  unfold parse_FORTRAN_format.
  assert (Hrep' : pyval_eqb (PyStr (g_repeat m)) (PyStr "") = false).
  { simpl. destruct (g_repeat m); [congruence|reflexivity]. }
  destruct Hm as [-> | [-> ->]];
    cbn [bind Monad_either groupdict ret catch Exception_either];
    descriptor_fields; rewrite Hrep';
    unfold descriptor_of_match;
    change (pyval_eqb (PyStr (g_format m)) (PyStr "X"))
      with (String.eqb (g_format m) "X");
    destruct (String.eqb (g_format m) "X");
    descriptor_fields;
    rewrite (int_or_keep_digits _ Hrep Hne);
    try change (int_or_keep (PyInt 1)) with (Ok (PyInt 1));
    rewrite ?(int_or_keep_group _ Hlen);
    rewrite (int_or_keep_group _ Hdec);
    try reflexivity; destruct (g_length m); reflexivity.
Qed.

Lemma parse_no_match tok :
  FORTRAN_format_match (upper tok) = None ->
  FORTRAN_format_match ("1" ++ upper tok) = None ->
  parse_FORTRAN_format tok = Raise AttributeError.
Proof.
  intros H1 H2. unfold parse_FORTRAN_format. rewrite H1, H2. reflexivity.
Qed.

Lemma parse_token tok :
  parse_FORTRAN_format tok =
  match token_match tok with
  | Some m => descriptor_of_match m
  | None => Raise AttributeError
  end.
Proof.
  destruct (token_match tok) as [m|] eqn:Hm.
  - apply parse_with_match; [|now apply token_match_well_formed with tok].
    revert Hm. unfold token_match. rewrite match_upper, match_retry.
    destruct (span_digits tok) as [[|d ds] [|c rest]]; try discriminate;
      destruct (is_format_letter (upper_char c)); try discriminate;
      destruct (match_numfmt (upper rest)) as [[numfmt len] dec];
      intros [= <-]; auto.
  - revert Hm. unfold token_match. intros Hm.
    apply parse_no_match; [rewrite match_upper|rewrite match_retry];
      destruct (span_digits tok) as [[|d ds] [|c rest]]; try reflexivity;
      destruct (is_format_letter (upper_char c)); try reflexivity;
      destruct (match_numfmt (upper rest)) as [[numfmt len] dec];
      discriminate.
Qed.

Lemma number_nonneg ds : 0 <= number ds.
Proof.
  unfold number, digits_value. destruct ds as [|c ds]; [lia|].
  destruct (digits_acc 0 (String c ds)) as [z|] eqn:Hz; [|lia].
  destruct (all_digits (String c ds)) eqn:Hd.
  - destruct (digits_acc_some _ 0 Hd (Z.le_refl 0)) as [z' [Hz' Hpos]].
    congruence.
  - exfalso. revert Hz Hd. generalize 0. generalize (String c ds).
    induction s as [|a s IH]; simpl; [discriminate|].
    intros acc. destruct (isdigit a); [apply IH|discriminate].
Qed.

Lemma eqb_one_letter c x :
  String.eqb (String c EmptyString) (String x EmptyString) = Ascii.eqb c x.
Proof. simpl. now destruct (Ascii.eqb c x). Qed.

Lemma parse_ok tok d : parse_FORTRAN_format tok = Ok d -> parsed tok d.
Proof.
  rewrite parse_token. unfold token_match, descriptor_of_match.
  intros H.
  split; unfold token_total_width, token_width, token_is_skip,
                token_type_code, token_repeat;
    revert H;
    (destruct (span_digits tok) as [rep [|c rest]]; [discriminate|]);
    (destruct (is_format_letter (upper_char c)) eqn:Hc; [|discriminate]);
    pose proof (match_numfmt_length (upper rest)) as Hlen;
    rewrite span_digits_upper in Hlen;
    destruct (match_numfmt (upper rest)) as [[numfmt len] dec];
    cbn [fst snd g_repeat g_format g_length g_decimals g_numfmt] in *;
    change "X" with (String "X"%char EmptyString); rewrite eqb_one_letter;
    (destruct (Ascii.eqb (upper_char c) "X");
     [|subst len; destruct (fst (span_digits rest)) as [|l ls];
       [discriminate|]]);
    intros [= <-]; cbn; eauto;
    try (destruct rep; reflexivity);
    try (destruct rep; [lia|apply number_nonneg]);
    try apply number_nonneg; try lia.
Qed.

(** ** The loops of [__init__] *)

Lemma format_letter_cases c :
  is_format_letter c = true ->
  c = "I"%char \/ c = "F"%char \/ c = "E"%char \/ c = "A"%char \/ c = "X"%char.
Proof.
  unfold is_format_letter. simpl. rewrite !orb_true_iff, !Ascii.eqb_eq.
  intuition discriminate.
Qed.

Lemma FixedcolumnEntry_init_ok start stop c :
  is_format_letter c = true -> Ascii.eqb c "X" = false ->
  exists e, FixedcolumnEntry_init start stop (PyStr (String c EmptyString)) = Ok e /\
            column_of e = (start, stop, Some c) /\ consistent e.
Proof.
  intros Hc HX.
  destruct (format_letter_cases c Hc) as [->|[->|[->|[->| ->]]]];
    try discriminate HX; eexists; (split; [reflexivity|split; reflexivity]).
Qed.

Lemma append_entries_ok n : forall d c w start entries,
  Descriptor.length d = PyInt w ->
  Descriptor.format d = PyStr (String c EmptyString) ->
  is_format_letter c = true -> Ascii.eqb c "X" = false ->
  exists es,
    append_entries n d start entries
      = Ok (start + Z.of_nat n * w, (entries ++ es)%list) /\
    map column_of es = spec_fields n start w (Some c) /\
    Forall consistent es.
Proof.
  induction n as [|n IH]; intros d c w start entries Hw Hf Hc HX.
  - exists []. cbn [append_entries ret Monad_either spec_fields map].
    rewrite app_nil_r, Z.add_0_r. auto.
  - cbn [append_entries]. rewrite Hw, Hf.
    destruct (FixedcolumnEntry_init_ok start (start + w) c Hc HX)
      as (e & He & Hcol & Hcons).
    cbn [py_add bind ret Monad_either]. rewrite He.
    destruct (IH d c w (start + w) (entries ++ [e])%list Hw Hf Hc HX)
      as (es & Hes & Hcols & Hall).
    exists (e :: es). rewrite Hes, <- app_assoc. cbn [app map spec_fields].
    rewrite Hcol, Hcols. repeat split; auto.
    do 2 f_equal. lia.
Qed.

Lemma token_skip_code tok c :
  token_type_code tok = Some c -> token_is_skip tok = Ascii.eqb c "X".
Proof. unfold token_is_skip. now intros ->. Qed.

Lemma layout_step_ok tok d start entries :
  parsed tok d ->
  exists es,
    layout_step (start, entries) d
      = Ok (start + token_total_width tok, (entries ++ es)%list) /\
    map column_of es =
      (if token_is_skip tok then []
       else spec_fields (Z.to_nat (token_repeat tok)) start
                        (token_width tok) (token_type_code tok)) /\
    Forall consistent es.
Proof.
  intros [(c & Hcode & Hc & Hf) Hr Hl Ht Hrpos Hwpos].
  unfold layout_step. rewrite Hf, (token_skip_code tok c Hcode).
  change (pyval_eqb (PyStr (String c EmptyString)) (PyStr "X"))
    with (String.eqb (String c EmptyString) (String "X"%char EmptyString)).
  rewrite eqb_one_letter. destruct (Ascii.eqb c "X") eqn:HX; cbn [negb].
  - exists []. unfold Descriptor.get_totallength. rewrite Ht.
    cbn. rewrite app_nil_r. auto.
  - rewrite Hr. cbn [py_range bind ret Monad_either].
    destruct (append_entries_ok (Z.to_nat (token_repeat tok)) d c
                (token_width tok) start entries Hl Hf Hc HX)
      as (es & Hes & Hcols & Hall).
    exists es. rewrite Hes, Hcode. repeat split; auto.
    unfold token_total_width. do 2 f_equal. lia.
Qed.

Lemma comprehension_Forall2 {A B} (f : A -> result B) l : forall l',
  comprehension f l = Ok l' -> Forall2 (fun x y => f x = Ok y) l l'.
Proof.
  induction l as [|x l IH]; cbn [comprehension ret bind Monad_either]; intros l'.
  - intros [= <-]. constructor.
  - destruct (f x) as [e|y] eqn:Hy; [discriminate|].
    destruct (comprehension f l) as [e|ys]; [discriminate|].
    intros [= <-]. constructor; auto.
Qed.

Lemma layout_ok toks : forall ds start entries,
  Forall2 (fun tok d => parse_FORTRAN_format tok = Ok d) toks ds ->
  exists es,
    for_each layout_step ds (start, entries)
      = Ok (start + spec_total_width toks, (entries ++ es)%list) /\
    map column_of es = spec_layout start toks /\
    Forall consistent es.
Proof.
  induction toks as [|tok toks IH]; intros ds start entries H;
    inversion H as [|? d ? ds' Hp Hf]; subst.
  - exists []. cbn. rewrite app_nil_r, Z.add_0_r. auto.
  - apply parse_ok in Hp.
    destruct (layout_step_ok tok d start entries Hp) as (es1 & H1 & Hc1 & Ha1).
    cbn [for_each bind Monad_either]. rewrite H1.
    destruct (IH ds' (start + token_total_width tok) (entries ++ es1)%list Hf)
      as (es2 & H2 & Hc2 & Ha2).
    exists (es1 ++ es2)%list. rewrite H2, <- app_assoc, map_app, Hc1, Hc2.
    cbn [spec_layout spec_total_width]. repeat split.
    + do 2 f_equal. lia.
    + apply Forall_app; auto.
Qed.

Lemma FORTRANReader_init_ok f r :
  FORTRANReader_init f = Ok r ->
  fmt r = split "," f /\
  map column_of (entries r) = spec_layout 0 (split "," f) /\
  Forall consistent (entries r).
Proof.
  unfold FORTRANReader_init. cbn [bind ret Monad_either].
  destruct (comprehension parse_FORTRAN_format (split "," f)) as [e|ds] eqn:Hds;
    [discriminate|].
  apply comprehension_Forall2 in Hds.
  destruct (layout_ok _ _ 0 [] Hds) as (es & Hes & Hcols & Hall).
  rewrite Hes. intros [= <-]. cbn. auto.
Qed.

Lemma comprehension_raise {A B} (f : A -> result B) l ex :
  comprehension f l = Raise ex -> exists x, In x l /\ f x = Raise ex.
Proof.
  induction l as [|x l IH]; cbn [comprehension ret bind Monad_either];
    [discriminate|].
  destruct (f x) as [e|y] eqn:Hx.
  - intros [= <-]. exists x. split; [now left|assumption].
  - destruct (comprehension f l) as [e|ys]; [|discriminate].
    intros [= <-]. destruct (IH eq_refl) as (x' & Hin & Hx').
    exists x'. split; [now right|assumption].
Qed.

Lemma comprehension_returns {A B} (f : A -> result B) l :
  Forall (fun x => exists y, f x = Ok y) l ->
  exists l', comprehension f l = Ok l'.
Proof.
  induction 1 as [|x l [y Hy] _ [l' IH]];
    cbn [comprehension ret bind Monad_either].
  - eauto.
  - rewrite Hy, IH. eauto.
Qed.

(** The only exceptions of [parse_FORTRAN_format]. *)
Lemma parse_raises tok ex :
  parse_FORTRAN_format tok = Raise ex ->
  ex = AttributeError \/ ex = TypeError.
Proof.
  rewrite parse_token. destruct (token_match tok) as [m|];
    [|intros [= <-]; now left].
  unfold descriptor_of_match. destruct (String.eqb (g_format m) "X");
    [discriminate|].
  destruct (g_length m); [discriminate|]. intros [= <-]. now right.
Qed.

(** The constructor raises what the first token that does not parse
    raises; the loops over the descriptors raise nothing. *)
Lemma FORTRANReader_init_raises f ex :
  FORTRANReader_init f = Raise ex ->
  (exists tok, In tok (split "," f) /\ parse_FORTRAN_format tok = Raise ex) /\
  (ex = AttributeError \/ ex = TypeError).
Proof.
  unfold FORTRANReader_init. cbn [bind ret Monad_either].
  destruct (comprehension parse_FORTRAN_format (split "," f)) as [e|ds] eqn:Hds.
  - intros [= <-]. apply comprehension_raise in Hds as (tok & Hin & Htok).
    split; [eauto|]. now apply parse_raises with tok.
  - apply comprehension_Forall2 in Hds.
    destruct (layout_ok _ _ 0 [] Hds) as (es & Hes & _). rewrite Hes.
    discriminate.
Qed.

(** When every token parses, the constructor returns a reader. *)
Lemma FORTRANReader_init_returns f :
  Forall (fun tok => exists d, parse_FORTRAN_format tok = Ok d) (split "," f) ->
  exists r, FORTRANReader_init f = Ok r.
Proof.
  intros H. apply comprehension_returns in H as [ds Hds].
  unfold FORTRANReader_init. cbn [bind ret Monad_either]. rewrite Hds.
  apply comprehension_Forall2 in Hds.
  destruct (layout_ok _ _ 0 [] Hds) as (es & Hes & _). rewrite Hes. eauto.
Qed.

(** ** The layout of the specification *)

Lemma token_repeat_nonneg tok : 0 <= token_repeat tok.
Proof.
  unfold token_repeat. destruct (fst (span_digits tok)); [lia|apply number_nonneg].
Qed.

Lemma token_width_nonneg tok : 0 <= token_width tok.
Proof.
  unfold token_width. destruct (token_is_skip tok); [lia|].
  destruct (snd (span_digits tok)); [lia|apply number_nonneg].
Qed.

Lemma token_total_width_nonneg tok : 0 <= token_total_width tok.
Proof.
  unfold token_total_width.
  pose proof (token_repeat_nonneg tok). pose proof (token_width_nonneg tok). nia.
Qed.

Lemma spec_total_width_nonneg toks : 0 <= spec_total_width toks.
Proof.
  induction toks as [|tok toks IH]; cbn [spec_total_width]; [lia|].
  pose proof (token_total_width_nonneg tok). lia.
Qed.

Lemma within_weaken lo hi lo' hi' c :
  lo' <= lo -> hi <= hi' -> within lo hi c -> within lo' hi' c.
Proof. unfold within. lia. Qed.

Lemma StronglySorted_app {A} (R : A -> A -> Prop) l1 l2 :
  StronglySorted R l1 -> StronglySorted R l2 ->
  (forall a b, In a l1 -> In b l2 -> R a b) ->
  StronglySorted R (l1 ++ l2).
Proof.
  induction l1 as [|x l1 IH]; cbn [app]; intros H1 H2 H12; [assumption|].
  apply StronglySorted_inv in H1 as [H1 Hx]. constructor.
  - apply IH; auto. intros a b Ha Hb. apply H12; [now right|assumption].
  - apply Forall_app. split; [assumption|].
    apply Forall_forall. intros b Hb. apply H12; [now left|assumption].
Qed.

Lemma spec_fields_length n cur w tc : List.length (spec_fields n cur w tc) = n.
Proof. revert cur. induction n; cbn; auto. Qed.

Lemma spec_fields_within n : forall cur w tc,
  0 <= w ->
  Forall (within cur (cur + Z.of_nat n * w)) (spec_fields n cur w tc).
Proof.
  induction n as [|n IH]; intros cur w tc Hw; cbn [spec_fields]; constructor.
  - unfold within, col_start, col_stop. cbn [fst snd]. nia.
  - eapply Forall_impl; [|apply (IH (cur + w) w tc Hw)].
    intros c. apply within_weaken; lia.
Qed.

Lemma spec_fields_sorted n : forall cur w tc,
  0 <= w -> StronglySorted before (spec_fields n cur w tc).
Proof.
  induction n as [|n IH]; intros cur w tc Hw; cbn [spec_fields]; constructor.
  - now apply IH.
  - eapply Forall_impl; [|apply (spec_fields_within n (cur + w) w tc Hw)].
    intros c [H _]. exact H.
Qed.

Lemma spec_fields_width n : forall cur w tc,
  Forall (fun c => col_stop c = col_start c + w) (spec_fields n cur w tc).
Proof.
  induction n as [|n IH]; intros cur w tc; cbn [spec_fields]; constructor; auto.
Qed.

Lemma spec_layout_within toks : forall cur,
  Forall (within cur (cur + spec_total_width toks)) (spec_layout cur toks).
Proof.
  induction toks as [|tok toks IH]; intros cur; cbn [spec_layout spec_total_width];
    [constructor|].
  pose proof (token_total_width_nonneg tok) as Ht.
  pose proof (spec_total_width_nonneg toks) as Hs.
  apply Forall_app. split.
  - destruct (token_is_skip tok); [constructor|].
    eapply Forall_impl;
      [|apply spec_fields_within, token_width_nonneg].
    intros c. apply within_weaken; [lia|].
    unfold token_total_width. pose proof (token_repeat_nonneg tok). 
    rewrite Z2Nat.id by assumption. lia.
  - eapply Forall_impl; [|apply IH]. intros c. apply within_weaken; lia.
Qed.

Lemma spec_layout_sorted toks : forall cur,
  StronglySorted before (spec_layout cur toks).
Proof.
  induction toks as [|tok toks IH]; intros cur; cbn [spec_layout]; [constructor|].
  apply StronglySorted_app; [| apply IH |].
  - destruct (token_is_skip tok); [constructor|].
    apply spec_fields_sorted, token_width_nonneg.
  - intros a b Ha Hb.
    pose proof (spec_layout_within toks (cur + token_total_width tok)) as Hlater.
    rewrite Forall_forall in Hlater. destruct (Hlater b Hb) as [Hb1 _].
    destruct (token_is_skip tok); [contradiction|].
    pose proof (spec_fields_within (Z.to_nat (token_repeat tok)) cur
                  (token_width tok) (token_type_code tok)
                  (token_width_nonneg tok)) as Hnow.
    rewrite Forall_forall in Hnow. destruct (Hnow a Ha) as (_ & _ & Ha3).
    rewrite Z2Nat.id in Ha3 by apply token_repeat_nonneg.
    unfold before. unfold token_total_width in Hb1. lia.
Qed.

Lemma spec_layout_length toks : forall cur,
  Z.of_nat (List.length (spec_layout cur toks)) = spec_entry_count toks.
Proof.
  induction toks as [|tok toks IH]; intros cur;
    cbn [spec_layout spec_entry_count]; [reflexivity|].
  rewrite length_app, Nat2Z.inj_add, IH. f_equal.
  destruct (token_is_skip tok); [reflexivity|].
  rewrite spec_fields_length. apply Z2Nat.id, token_repeat_nonneg.
Qed.

(** ** [split] and [join] *)

Lemma split_not_nil sep s : split sep s <> [].
Proof.
  destruct s as [|c s]; cbn [split]; [discriminate|].
  destruct (Ascii.eqb c sep); [discriminate|].
  destruct (split sep s); discriminate.
Qed.

Lemma join_cons_char sep c t ts :
  join sep (String c t :: ts) = String c (join sep (t :: ts)).
Proof. destruct ts; reflexivity. Qed.

Lemma join_split sep s : join (String sep EmptyString) (split sep s) = s.
Proof.
  induction s as [|c s IH]; cbn [split]; [reflexivity|].
  destruct (Ascii.eqb_spec c sep) as [->|Hc].
  - pose proof (split_not_nil sep s) as Hne.
    destruct (split sep s) as [|t ts]; [congruence|].
    change (String sep (join (String sep EmptyString) (t :: ts)) = String sep s).
    now rewrite IH.
  - pose proof (split_not_nil sep s) as Hne.
    destruct (split sep s) as [|t ts]; [congruence|].
    rewrite join_cons_char. now rewrite IH.
Qed.

(** ** Reading *)

Lemma convert_raises c s ex :
  convert c s = Raise ex -> exists args, ex = ValueError args.
Proof.
  destruct c; cbn [convert].
  - destruct (int_of_str s); [discriminate|]. intros [= <-]. eauto.
  - destruct (float_of_str s); [discriminate|]. intros [= <-]. eauto.
  - discriminate.
Qed.

(** Whatever goes wrong in a conversion, [read] raises its own
    [ValueError]. *)
Lemma FixedcolumnEntry_read_raises e line ex :
  FixedcolumnEntry_read e line = Raise ex -> ex = read_error line e.
Proof.
  unfold FixedcolumnEntry_read, except_ValueError.
  destruct (convert (convertor e) (slice line (start e) (stop e)))
    as [ex'|v] eqn:Hc; [|discriminate].
  destruct (convert_raises _ _ _ Hc) as [args ->].
  cbn [catch Exception_either raise]. now intros [= <-].
Qed.

Lemma reads_ok e line :
  reads line e = true -> exists v, FixedcolumnEntry_read e line = Ok v.
Proof.
  unfold reads. destruct (FixedcolumnEntry_read e line); [discriminate|eauto].
Qed.

Lemma reads_raise e line :
  reads line e = false ->
  FixedcolumnEntry_read e line = Raise (read_error line e).
Proof.
  unfold reads.
  destruct (FixedcolumnEntry_read e line) as [ex|v] eqn:H; [|discriminate].
  now rewrite (FixedcolumnEntry_read_raises e line ex H).
Qed.

Lemma malformed_numeric_fails e line :
  malformed_numeric line e -> reads line e = false.
Proof.
  unfold reads, FixedcolumnEntry_read, convert.
  now intros [[-> ->]|[-> ->]].
Qed.

(** The counting loop of [number_of_matches], from any count. *)
Lemma count_matches line es : forall matches,
  for_each
    (fun matches e =>
       except_ValueError
         (_ <- FixedcolumnEntry_read e line ;; ret (matches + 1))
         (fun _ => ret matches))
    es matches
  = Ok (matches + Z.of_nat (List.length (filter (reads line) es))).
Proof.
  induction es as [|e es IH]; intros matches; cbn [for_each filter].
  - cbn. now rewrite Z.add_0_r.
  - destruct (reads line e) eqn:He.
    + destruct (reads_ok e line He) as [v ->].
      cbn [except_ValueError bind ret catch Monad_either Exception_either].
      rewrite IH. cbn [List.length]. f_equal. lia.
    + rewrite (reads_raise e line He).
      cbn [except_ValueError bind ret catch Monad_either Exception_either
           read_error].
      apply IH.
Qed.

Lemma comprehension_app_raise {A B} (f : A -> result B) l1 x l2 ex :
  Forall (fun a => exists b, f a = Ok b) l1 -> f x = Raise ex ->
  comprehension f (l1 ++ x :: l2) = Raise ex.
Proof.
  intros H Hx. induction H as [|a l1 [b Hb] _ IH];
    cbn [app comprehension bind Monad_either].
  - now rewrite Hx.
  - now rewrite Hb, IH.
Qed.

Lemma comprehension_map {A B} (f : A -> result B) (g : A -> B) l :
  Forall (fun a => f a = Ok (g a)) l -> comprehension f l = Ok (map g l).
Proof.
  induction 1 as [|a l Ha _ IH]; cbn [comprehension map bind ret Monad_either].
  - reflexivity.
  - now rewrite Ha, IH.
Qed.

Lemma filter_all {A} (p : A -> bool) l :
  Forall (fun a => p a = true) l -> filter p l = l.
Proof.
  induction 1 as [|a l Ha _ IH]; cbn [filter]; [reflexivity|].
  now rewrite Ha, IH.
Qed.

Lemma StronglySorted_map {A B} (f : A -> B) (R : B -> B -> Prop) l :
  StronglySorted R (map f l) -> StronglySorted (fun a b => R (f a) (f b)) l.
Proof.
  induction l as [|x l IH]; cbn [map]; intros H; [constructor|].
  apply StronglySorted_inv in H as [H Hx]. constructor; [now apply IH|].
  apply (proj1 (Forall_map f (R (f x)) l)) in Hx. exact Hx.
Qed.

Lemma spec_layout_positive toks : forall cur,
  Forall (fun tok => 0 < token_width tok) toks ->
  Forall (fun c => col_start c < col_stop c) (spec_layout cur toks).
Proof.
  induction toks as [|tok toks IH]; intros cur H; cbn [spec_layout];
    [constructor|].
  inversion H as [|? ? Htok Htoks]; subst.
  apply Forall_app. split; [|now apply IH].
  destruct (token_is_skip tok); [constructor|].
  eapply Forall_impl; [|apply spec_fields_width].
  cbv beta. intros c Hc. lia.
Qed.

(** ** The properties of the format compiler and of the reader *)

(** The match object [parse_FORTRAN_format] goes on with is the one read
    off the token. *)
Lemma descriptor_match_token tok : descriptor_match tok = token_match tok.
Proof.
  unfold descriptor_match, token_match. rewrite match_upper, match_retry.
  destruct (span_digits tok) as [[|d ds] [|c rest]]; try reflexivity;
    destruct (is_format_letter (upper_char c)); try reflexivity;
    destruct (match_numfmt (upper rest)) as [[numfmt len] dec]; reflexivity.
Qed.

(** A token the pattern does not match, not even after "1", ends
    [parse_FORTRAN_format] with the [AttributeError] of [None.groupdict()]:
    the [ValueError] that would name the token is never raised. *)
Lemma unmatched_token tok :
  descriptor_match tok = None ->
  parse_FORTRAN_format tok = Raise AttributeError.
Proof. rewrite descriptor_match_token, parse_token. now intros ->. Qed.

Lemma parse_never_ValueError tok args :
  parse_FORTRAN_format tok <> Raise (ValueError args).
Proof.
  rewrite parse_token. destruct (token_match tok) as [m|]; [|discriminate].
  unfold descriptor_of_match. destruct (String.eqb (g_format m) "X");
    [discriminate|]. destruct (g_length m); discriminate.
Qed.

(** A format string with a token the pattern does not match gives no
    reader: the constructor raises, and what it raises is never the
    [ValueError] naming the token. *)
Lemma unmatched_token_no_reader f tok :
  In tok (split "," f) -> descriptor_match tok = None ->
  exists ex, FORTRANReader_init f = Raise ex /\
             (ex = AttributeError \/ ex = TypeError).
Proof.
  intros Hin Hnone. destruct (FORTRANReader_init f) as [ex|r] eqn:Hinit.
  - exists ex. split; [reflexivity|].
    now apply (FORTRANReader_init_raises f ex).
  - exfalso. revert Hinit. unfold FORTRANReader_init.
    cbn [bind ret Monad_either].
    destruct (comprehension parse_FORTRAN_format (split "," f))
      as [e|ds] eqn:Hds; [discriminate|].
    intros _. apply comprehension_Forall2 in Hds.
    apply unmatched_token in Hnone.
    induction Hds as [|x d l ds Hx _ IH]; [contradiction|].
    destruct Hin as [->|Hin]; [congruence|auto].
Qed.

(** C1, on the code: compiling "2Z10" ends with the [AttributeError] of
    calling [groupdict] on [None], both in [parse_FORTRAN_format] and in the
    constructor; no [ValueError] naming the token "2Z10" is raised.  No
    reader is produced. *)
Theorem malformed_token_raises_AttributeError :
  parse_FORTRAN_format "2Z10" = Raise AttributeError /\
  FORTRANReader_init "2Z10" = Raise AttributeError /\
  FORTRANReader_init "2Z10"
    <> Raise (ValueError (unrecognized_FORTRAN_format "2Z10")).
Proof. repeat split; try reflexivity. discriminate. Qed.

(** C2: the number of entries of the reader compiled from a format string
    is the sum of the repeat counts of its tokens that are not skips, an
    omitted repeat count being 1. *)
Theorem entry_count_is_sum_of_repeats f r :
  FORTRANReader_init f = Ok r ->
  FORTRANReader_len r = spec_entry_count (split "," f).
Proof.
  intros H. apply FORTRANReader_init_ok in H as (_ & Hcols & _).
  unfold FORTRANReader_len.
  rewrite <- (length_map column_of), Hcols. apply spec_layout_length.
Qed.

(** C3, amended: the entries of a compiled reader are the layout of the
    running cursor (each field starts where the previous one stopped, a skip
    only advances the cursor); every entry has [0 <= start <= stop]; every
    entry stops before the later ones start; and [start < stop] holds for
    every entry when every token has a positive width. *)
Theorem entries_in_column_order f r :
  FORTRANReader_init f = Ok r ->
  map column_of (entries r) = spec_layout 0 (split "," f) /\
  Forall (fun e => 0 <= start e <= stop e) (entries r) /\
  StronglySorted (fun e1 e2 => stop e1 <= start e2) (entries r) /\
  (Forall (fun tok => 0 < token_width tok) (split "," f) ->
   Forall (fun e => start e < stop e) (entries r)).
Proof.
  intros H. apply FORTRANReader_init_ok in H as (_ & Hcols & _).
  split; [assumption|]. repeat split.
  - pose proof (spec_layout_within (split "," f) 0) as Hw.
    rewrite <- Hcols in Hw. rewrite Forall_map in Hw.
    eapply Forall_impl; [|exact Hw]. cbv beta.
    unfold within, col_start, col_stop, column_of. cbn [fst snd]. lia.
  - pose proof (spec_layout_sorted (split "," f) 0) as Hs.
    rewrite <- Hcols in Hs. apply StronglySorted_map in Hs. exact Hs.
  - intros Hpos. pose proof (spec_layout_positive _ 0 Hpos) as Hp.
    rewrite <- Hcols in Hp. rewrite Forall_map in Hp. exact Hp.
Qed.

(** C4: "2I10,2X,A8" compiles to the three entries [0,10) of type I,
    [10,20) of type I and [22,30) of type A, and [read] turns the line
    "       123       456  hello   " into 123, 456 and "hello". *)
Theorem example_2I10_2X_A8 :
  exists r,
    FORTRANReader_init "2I10,2X,A8" = Ok r /\
    map column_of (entries r)
      = [(0, 10, Some "I"%char); (10, 20, Some "I"%char);
         (22, 30, Some "A"%char)] /\
    FORTRANReader_read r "       123       456  hello   "
      = Ok [VInt 123; VInt 456; VStr "hello"].
Proof. eexists. repeat split. Qed.

(** C5: when one numeric field of the line does not convert and every
    other field does, [number_of_matches] returns the number of entries
    less one, and [read] raises the [ValueError] of that field instead of
    returning values. *)
Theorem one_malformed_field r line es1 e es2 :
  entries r = (es1 ++ e :: es2)%list ->
  Forall (fun e' => reads line e' = true) es1 ->
  Forall (fun e' => reads line e' = true) es2 ->
  malformed_numeric line e ->
  number_of_matches r line = Ok (FORTRANReader_len r - 1) /\
  FORTRANReader_read r line = Raise (read_error line e).
Proof.
  intros Hes H1 H2 He.
  pose proof (malformed_numeric_fails e line He) as Hfalse.
  unfold number_of_matches, FORTRANReader_read, FORTRANReader_len.
  rewrite Hes. split.
  - rewrite count_matches, filter_app. cbn [filter]. rewrite Hfalse.
    rewrite (filter_all _ _ H1), (filter_all _ _ H2), !length_app.
    cbn [List.length]. f_equal. lia.
  - apply comprehension_app_raise; [|now apply reads_raise].
    eapply Forall_impl; [|exact H1]. cbv beta. intros a Ha.
    now apply reads_ok.
Qed.

(** C6: [number_of_matches] never raises: on every reader and every line
    it returns the number of entries whose own conversion succeeds. *)
Theorem number_of_matches_total r line :
  number_of_matches r line
  = Ok (Z.of_nat (List.length (filter (reads line) (entries r)))).
Proof. unfold number_of_matches. now rewrite count_matches. Qed.

(** C7, amended: of a token that parses, a missing repeat count is read as
    1; a missing decimals capture stays [None], it is not 0; when the width
    is missing the descriptor is a skip, of width 1; a written width of a
    descriptor that is not a skip is the width. *)
Theorem missing_captures tok m d :
  descriptor_match tok = Some m ->
  parse_FORTRAN_format tok = Ok d ->
  (FORTRAN_format_match (upper tok) = None ->
   Descriptor.repeat d = PyInt 1) /\
  (g_decimals m = None -> Descriptor.decimals d = PyNone) /\
  (g_length m = None ->
   Descriptor.format d = PyStr "X" /\ Descriptor.length d = PyInt 1) /\
  (forall w, g_length m = Some w -> Descriptor.format d <> PyStr "X" ->
             Descriptor.length d = PyInt (number w)).
Proof.
  intros Hm Hd.
  assert (Hrep : FORTRAN_format_match (upper tok) = None -> g_repeat m = "1").
  { revert Hm. unfold descriptor_match. rewrite match_upper, match_retry.
    destruct (span_digits tok) as [[|x ds] [|c rest]]; try discriminate;
      destruct (is_format_letter (upper_char c)); try discriminate;
      destruct (match_numfmt (upper rest)) as [[numfmt len] dec];
      intros [= <-]; [reflexivity|discriminate]. }
  rewrite descriptor_match_token in Hm. rewrite parse_token, Hm in Hd.
  unfold descriptor_of_match in Hd.
  destruct (String.eqb_spec (g_format m) "X") as [HX|HX].
  - injection Hd as <-. cbn. rewrite HX. repeat split.
    + intros H. now rewrite (Hrep H).
    + now intros ->.
    + intros w _ Hne. congruence.
  - destruct (g_length m) as [l|]; [|discriminate].
    injection Hd as <-. cbn. repeat split; try discriminate.
    + intros H. now rewrite (Hrep H).
    + now intros ->.
    + now intros w [= <-] _.
Qed.

(** C8: a skip descriptor has width 1 whatever width is written, and the
    step of the layout on it adds its repeat count to the cursor and leaves
    the entries as they are. *)
Theorem skip_descriptor tok d :
  parse_FORTRAN_format tok = Ok d ->
  Descriptor.format d = PyStr "X" ->
  Descriptor.length d = PyInt 1 /\
  Descriptor.repeat d = PyInt (token_repeat tok) /\
  forall start entries,
    layout_step (start, entries) d = Ok (start + token_repeat tok, entries).
Proof.
  intros Hp HX. apply parse_ok in Hp.
  assert (Hskip : token_is_skip tok = true).
  { destruct Hp as [(c & Hcode & _ & Hf) _ _ _ _ _].
    rewrite Hf in HX. injection HX as ->.
    now rewrite (token_skip_code tok _ Hcode). }
  assert (Hw : token_width tok = 1).
  { unfold token_width. now rewrite Hskip. }
  repeat split.
  - rewrite (parsed_length _ _ Hp). now rewrite Hw.
  - apply (parsed_repeat _ _ Hp).
  - intros start entries.
    destruct (layout_step_ok tok d start entries Hp) as (es & Hes & Hcols & _).
    rewrite Hskip in Hcols. destruct es; [|discriminate].
    rewrite Hes, app_nil_r. unfold token_total_width. rewrite Hw.
    now rewrite Z.mul_1_r.
Qed.

(** C9, amended: [repr] of a compiled reader is the class name followed
    by the format string it was constructed from, unchanged, between
    brackets. *)
Theorem repr_shows_format f r :
  FORTRANReader_init f = Ok r ->
  FORTRANReader_repr r = "FORTRANReader(" ++ f ++ ")".
Proof.
  intros H. apply FORTRANReader_init_ok in H as (Hfmt & _).
  unfold FORTRANReader_repr. rewrite Hfmt.
  change "," with (String ","%char EmptyString) at 1.
  now rewrite join_split.
Qed.

Lemma spec_fields_code n : forall cur w tc,
  Forall (fun c => snd c = tc) (spec_fields n cur w tc).
Proof.
  induction n as [|n IH]; intros cur w tc; cbn [spec_fields]; constructor; auto.
Qed.

Lemma spec_layout_strings toks : forall cur,
  Forall (fun tok => token_type_code tok = Some "A"%char \/
                     token_type_code tok = Some "X"%char) toks ->
  Forall (fun c => snd c = Some "A"%char) (spec_layout cur toks).
Proof.
  induction toks as [|tok toks IH]; intros cur H; cbn [spec_layout];
    [constructor|].
  inversion H as [|? ? Htok Htoks]; subst.
  apply Forall_app. split; [|now apply IH].
  unfold token_is_skip. destruct Htok as [-> | ->]; [|constructor].
  apply spec_fields_code.
Qed.

Lemma string_entry_reads e line :
  consistent e -> type_code_of (typespecifier e) = Some "A"%char ->
  FixedcolumnEntry_read e line
  = Ok (VStr (strip (slice line (start e) (stop e)))).
Proof.
  unfold consistent, type_code_of. intros Hc Ht.
  destruct (typespecifier e) as [| |[|c [|]]]; try discriminate.
  injection Ht as ->. cbn in Hc. injection Hc as Hc.
  unfold FixedcolumnEntry_read. now rewrite <- Hc.
Qed.

(** [strip] strips: it cuts off white space at the two ends, all of it and
    nothing else. *)
Lemma strip_stripped s : stripped s (strip s).
Proof. unfold stripped, strip. apply str_strip_spec. Qed.

(** C10: an entry of type A converts every line, to the slice with the
    white space at its two ends stripped, also when the line is shorter
    than the entry and the slice is empty or cut short; and a reader
    compiled from tokens of types A and X only reads every line,
    [number_of_matches] being its number of entries. *)
Theorem string_fields_always_convert :
  (forall start stop, exists e,
     FixedcolumnEntry_init start stop (PyStr "A") = Ok e /\
     forall line, exists t,
       FixedcolumnEntry_read e line = Ok (VStr t) /\
       t = strip (slice line start stop) /\
       stripped (slice line start stop) t) /\
  (forall f r line,
     FORTRANReader_init f = Ok r ->
     Forall (fun tok => token_type_code tok = Some "A"%char \/
                        token_type_code tok = Some "X"%char) (split "," f) ->
     FORTRANReader_read r line
     = Ok (map (fun e => VStr (strip (slice line (start e) (stop e))))
               (entries r)) /\
     Forall (fun e => stripped (slice line (start e) (stop e))
                               (strip (slice line (start e) (stop e))))
            (entries r) /\
     number_of_matches r line = Ok (FORTRANReader_len r)).
Proof.
  split.
  - intros start stop. eexists. split; [reflexivity|].
    intros line. eexists. split; [reflexivity|]. split; [reflexivity|].
    apply strip_stripped.
  - intros f r line H Hcodes.
    apply FORTRANReader_init_ok in H as (_ & Hcols & Hcons).
    pose proof (spec_layout_strings _ 0 Hcodes) as HA.
    rewrite <- Hcols, Forall_map in HA.
    assert (Hread : Forall (fun e => FixedcolumnEntry_read e line
                      = Ok (VStr (strip (slice line (start e) (stop e)))))
                    (entries r)).
    { rewrite Forall_forall in *. intros e He.
      apply string_entry_reads; [now apply Hcons|]. apply (HA e He). }
    split; [|split].
    + unfold FORTRANReader_read. now apply comprehension_map.
    + apply Forall_forall. intros e _. apply strip_stripped.
    + unfold number_of_matches, FORTRANReader_len. rewrite count_matches.
      rewrite filter_all; [reflexivity|].
      eapply Forall_impl; [|exact Hread]. cbv beta. intros e He.
      unfold reads. now rewrite He.
Qed.

(** ** More on the format compiler *)

Lemma span_digits_no_digit s :
  fst (span_digits s) = EmptyString <-> starts_with isdigit s = false.
Proof.
  destruct s as [|c s]; cbn [span_digits starts_with fst]; [tauto|].
  destruct (isdigit c); [|tauto].
  destruct (span_digits s) as [ds rest]. cbn [fst]. split; discriminate.
Qed.

Lemma starts_with_digit_upper s :
  starts_with isdigit (upper s) = starts_with isdigit s.
Proof. destruct s as [|c s]; [reflexivity|]. apply isdigit_upper_char. Qed.

(** The outcome of [parse_FORTRAN_format], read off the token. *)
Lemma parse_outcome tok :
  if token_compiles tok
  then exists d, parse_FORTRAN_format tok = Ok d
  else parse_FORTRAN_format tok = Raise (token_exception tok).
Proof.
  rewrite parse_token. unfold token_compiles, token_exception, token_match.
  destruct (span_digits tok) as [rep [|c rest]]; cbn [snd]; [reflexivity|].
  destruct (is_format_letter (upper_char c)) eqn:Hc; cbn [andb];
    [|reflexivity].
  pose proof (match_numfmt_length (upper rest)) as Hlen.
  rewrite span_digits_upper in Hlen. cbn [fst] in Hlen.
  pose proof (span_digits_no_digit rest) as Hno.
  destruct (match_numfmt (upper rest)) as [[numfmt len] dec].
  cbn [fst snd] in Hlen. unfold descriptor_of_match.
  cbn [g_format g_length].
  change "X" with (String "X"%char EmptyString). rewrite eqb_one_letter.
  destruct (Ascii.eqb (upper_char c) "X"); cbn [orb]; [eauto|].
  subst len. destruct (fst (span_digits rest)) as [|l ls].
  - rewrite (proj1 Hno eq_refl). reflexivity.
  - destruct (starts_with isdigit rest) eqn:Hd; [eauto|].
    destruct Hno as [_ Hno]. discriminate (Hno eq_refl).
Qed.

Lemma comprehension_parse toks :
  match find (fun tok => negb (token_compiles tok)) toks with
  | Some tok =>
      comprehension parse_FORTRAN_format toks = Raise (token_exception tok)
  | None => exists ds, comprehension parse_FORTRAN_format toks = Ok ds
  end.
Proof.
  induction toks as [|tok toks IH];
    cbn [find comprehension bind ret Monad_either]; [eauto|].
  pose proof (parse_outcome tok) as Htok.
  destruct (token_compiles tok); cbn [negb].
  - destruct Htok as [d ->].
    destruct (find (fun tok => negb (token_compiles tok)) toks).
    + now rewrite IH.
    + destruct IH as [ds ->]. eauto.
  - now rewrite Htok.
Qed.

(** X1: [parse_FORTRAN_format] returns a descriptor exactly for the tokens
    that go on, after the digits they may start with, with one of the
    letters I, F, E, A, X in either case and then, unless the letter is X,
    with a digit; what follows is ignored.  On the other tokens it raises
    [TypeError] when only the width is missing and [AttributeError]
    otherwise. *)
Theorem parse_accepts tok :
  ((exists d, parse_FORTRAN_format tok = Ok d) <-> token_compiles tok = true) /\
  (forall ex, parse_FORTRAN_format tok = Raise ex <->
              token_compiles tok = false /\ ex = token_exception tok).
Proof.
  pose proof (parse_outcome tok) as H.
  destruct (token_compiles tok).
  - destruct H as [d Hd]. split.
    + split; [reflexivity|eauto].
    + intros ex. rewrite Hd. split; [discriminate|]. now intros [? _].
  - split.
    + rewrite H. split; [intros [d Hd]|]; discriminate.
    + intros ex. rewrite H. split.
      * now intros [= <-].
      * now intros [_ ->].
Qed.

(** X2: the constructor returns a reader exactly when every comma
    separated token of the format string compiles; otherwise it raises what
    [parse_FORTRAN_format] raises on the first token, from the left, that
    does not compile. *)
Theorem constructor_outcome f :
  match find (fun tok => negb (token_compiles tok)) (split "," f) with
  | Some tok => FORTRANReader_init f = Raise (token_exception tok)
  | None => exists r, FORTRANReader_init f = Ok r
  end.
Proof.
  pose proof (comprehension_parse (split "," f)) as H.
  unfold FORTRANReader_init. cbn [bind ret Monad_either].
  destruct (find (fun tok => negb (token_compiles tok)) (split "," f)).
  - now rewrite H.
  - destruct H as [ds Hds]. rewrite Hds.
    apply comprehension_Forall2 in Hds.
    destruct (layout_ok _ _ 0 [] Hds) as (es & Hes & _). rewrite Hes. eauto.
Qed.

(** X3: in every descriptor [parse_FORTRAN_format] returns, repeat and
    length are integers that are not negative, format is one of the five
    upper case letters, totallength is the product of repeat and length,
    and decimals is [None] or an integer that is not negative. *)
Theorem parse_returns_typed_dict tok d :
  parse_FORTRAN_format tok = Ok d ->
  exists r l c,
    Descriptor.repeat d = PyInt r /\ 0 <= r /\
    Descriptor.length d = PyInt l /\ 0 <= l /\
    Descriptor.format d = PyStr (String c EmptyString) /\
    is_format_letter c = true /\
    Descriptor.totallength d = Some (PyInt (r * l)) /\
    (Descriptor.decimals d = PyNone \/
     exists k, Descriptor.decimals d = PyInt k /\ 0 <= k).
Proof.
  intros H. pose proof (parse_ok tok d H) as [(c & _ & Hc & Hf) Hr Hl Ht Hr0 Hl0].
  exists (token_repeat tok), (token_width tok), c.
  repeat (split; [assumption|]).
  revert H. rewrite parse_token.
  destruct (token_match tok) as [m|]; [|discriminate].
  unfold descriptor_of_match.
  destruct (String.eqb (g_format m) "X");
    [|destruct (g_length m); [|discriminate]];
    intros [= <-]; cbn [Descriptor.decimals]; unfold int_of_group;
    (destruct (g_decimals m) as [ds|]; [right|now left]);
    exists (number ds); (split; [reflexivity|apply number_nonneg]).
Qed.

Lemma upper_char_idempotent c : upper_char (upper_char c) = upper_char c.
Proof. by_cases_on_char c. Qed.

Lemma upper_idempotent s : upper (upper s) = upper s.
Proof.
  induction s as [|c s IH]; cbn [upper]; [reflexivity|].
  now rewrite upper_char_idempotent, IH.
Qed.

Lemma upper_char_comma c : Ascii.eqb (upper_char c) "," = Ascii.eqb c ",".
Proof. by_cases_on_char c. Qed.

Lemma split_upper f : split "," (upper f) = map upper (split "," f).
Proof.
  induction f as [|c f IH]; cbn [upper split map]; [reflexivity|].
  rewrite upper_char_comma, IH. destruct (Ascii.eqb c ","); [reflexivity|].
  destruct (split "," f); reflexivity.
Qed.

(** The case of the letters of a token does not matter. *)
Lemma parse_upper tok :
  parse_FORTRAN_format (upper tok) = parse_FORTRAN_format tok.
Proof.
  unfold parse_FORTRAN_format. rewrite upper_idempotent.
  destruct (FORTRAN_format_match (upper tok)); reflexivity.
Qed.

Lemma comprehension_map_upper toks :
  comprehension parse_FORTRAN_format (map upper toks)
  = comprehension parse_FORTRAN_format toks.
Proof.
  induction toks as [|tok toks IH];
    cbn [map comprehension bind ret Monad_either]; [reflexivity|].
  now rewrite parse_upper, IH.
Qed.

(** X4: the case of a format string does not matter: a format string and
    the same string in upper case give the same entries, or both raise the
    same exception. *)
Theorem format_case_insensitive f :
  entries_of (FORTRANReader_init (upper f)) = entries_of (FORTRANReader_init f).
Proof.
  unfold FORTRANReader_init. cbn [bind ret Monad_either].
  rewrite split_upper, comprehension_map_upper.
  destruct (comprehension parse_FORTRAN_format (split "," f)); [reflexivity|].
  destruct (for_each layout_step l (0, [])); reflexivity.
Qed.

Lemma spec_fields_sum n : forall cur w tc,
  sum_Z (map (fun c => col_stop c - col_start c) (spec_fields n cur w tc))
  = Z.of_nat n * w.
Proof.
  induction n as [|n IH]; intros cur w tc; cbn [spec_fields map sum_Z];
    [reflexivity|].
  rewrite IH. unfold col_stop, col_start. cbn [fst snd]. lia.
Qed.

Lemma sum_Z_app l1 l2 : sum_Z (l1 ++ l2) = sum_Z l1 + sum_Z l2.
Proof. induction l1 as [|x l1 IH]; cbn [app sum_Z]; lia. Qed.

Lemma spec_layout_sum toks : forall cur,
  sum_Z (map (fun c => col_stop c - col_start c) (spec_layout cur toks))
  + spec_skipped toks
  = spec_total_width toks.
Proof.
  induction toks as [|tok toks IH]; intros cur;
    cbn [spec_layout spec_skipped spec_total_width map sum_Z]; [reflexivity|].
  rewrite map_app, sum_Z_app. specialize (IH (cur + token_total_width tok)).
  destruct (token_is_skip tok); cbn [map sum_Z]; [lia|].
  rewrite spec_fields_sum. unfold token_total_width in *.
  rewrite Z2Nat.id by apply token_repeat_nonneg. lia.
Qed.

(** X5: the entries of a compiled reader lie between column 0 and the sum
    of the total widths of the descriptors, and the lengths of the entries
    together with the columns the skips pass over add up to that sum. *)
Theorem layout_width f r :
  FORTRANReader_init f = Ok r ->
  Forall (fun e => 0 <= start e /\ stop e <= spec_total_width (split "," f))
         (entries r) /\
  sum_Z (map FixedcolumnEntry_len (entries r)) + spec_skipped (split "," f)
  = spec_total_width (split "," f).
Proof.
  intros H. apply FORTRANReader_init_ok in H as (_ & Hcols & _). split.
  - pose proof (spec_layout_within (split "," f) 0) as Hw.
    rewrite <- Hcols in Hw. rewrite Forall_map in Hw.
    eapply Forall_impl; [|exact Hw]. cbv beta.
    unfold within, col_start, col_stop, column_of. cbn [fst snd]. lia.
  - rewrite <- (spec_layout_sum (split "," f) 0), <- Hcols, map_map.
    reflexivity.
Qed.

(** ** More on reading *)

Lemma substring_zero n s : substring n 0 s = EmptyString.
Proof.
  revert n. induction s as [|c s IH]; intros [|n]; cbn [substring]; auto.
Qed.

Lemma length_substring s : forall n m,
  String.length (substring n m s) = Nat.min m (String.length s - n).
Proof.
  induction s as [|c s IH]; intros [|n] [|m]; cbn [substring String.length];
    try reflexivity.
  - rewrite IH. cbn. now rewrite Nat.sub_0_r.
  - rewrite IH. reflexivity.
  - rewrite IH. reflexivity.
Qed.

Lemma substring_append s t : forall n m,
  (n + m <= String.length s)%nat ->
  substring n m (s ++ t) = substring n m s.
Proof.
  induction s as [|c s IH]; intros n m H; cbn [String.length] in H.
  - assert (n = O) by lia. assert (m = O) by lia. subst.
    cbn [append]. now rewrite !substring_zero.
  - cbn [append]. destruct n as [|n]; destruct m as [|m]; cbn [substring];
      try reflexivity.
    + f_equal. apply IH. lia.
    + apply IH. lia.
    + apply IH. lia.
Qed.

(** What lies after the last column of a slice does not matter. *)
Lemma slice_append line extra start stop :
  0 <= start -> 0 <= stop -> stop <= Z.of_nat (String.length line) ->
  slice (line ++ extra) start stop = slice line start stop.
Proof.
  intros Hstart Hstop Hlen. unfold slice, slice_bound.
  rewrite length_append.
  replace (start <? 0) with false by (symmetry; apply Z.ltb_ge; lia).
  replace (stop <? 0) with false by (symmetry; apply Z.ltb_ge; lia).
  destruct (Z.le_gt_cases start stop) as [Hle|Hgt].
  - replace (Z.min start (Z.of_nat (String.length line + String.length extra)))
      with start by lia.
    replace (Z.min stop (Z.of_nat (String.length line + String.length extra)))
      with stop by lia.
    replace (Z.min start (Z.of_nat (String.length line))) with start by lia.
    replace (Z.min stop (Z.of_nat (String.length line))) with stop by lia.
    apply substring_append. lia.
  - replace (Z.to_nat (Z.min stop (Z.of_nat (String.length line
                                            + String.length extra))
                       - Z.min start (Z.of_nat (String.length line
                                                + String.length extra))))
      with O by lia.
    replace (Z.to_nat (Z.min stop (Z.of_nat (String.length line))
                       - Z.min start (Z.of_nat (String.length line))))
      with O by lia.
    now rewrite !substring_zero.
Qed.

Lemma slice_length line start stop :
  0 <= start <= stop ->
  Z.of_nat (String.length (slice line start stop))
  = Z.min stop (Z.of_nat (String.length line))
    - Z.min start (Z.of_nat (String.length line)).
Proof.
  intros H. unfold slice, slice_bound.
  replace (start <? 0) with false by (symmetry; apply Z.ltb_ge; lia).
  replace (stop <? 0) with false by (symmetry; apply Z.ltb_ge; lia).
  rewrite length_substring. lia.
Qed.

Lemma FixedcolumnEntry_read_append e line extra :
  0 <= start e -> 0 <= stop e -> stop e <= Z.of_nat (String.length line) ->
  FixedcolumnEntry_read e (line ++ extra) = FixedcolumnEntry_read e line.
Proof.
  intros H1 H2 H3. unfold FixedcolumnEntry_read.
  now rewrite (slice_append line extra (start e) (stop e) H1 H2 H3).
Qed.

Lemma comprehension_ext {A B} (f g : A -> result B) l :
  Forall (fun x => f x = g x) l -> comprehension f l = comprehension g l.
Proof.
  induction 1 as [|x l Hx _ IH]; cbn [comprehension]; [reflexivity|].
  now rewrite Hx, IH.
Qed.

Lemma for_each_ext {A S} (f g : S -> A -> result S) l :
  Forall (fun x => forall s, f s x = g s x) l ->
  forall s, for_each f l s = for_each g l s.
Proof.
  induction 1 as [|x l Hx _ IH]; intros s;
    cbn [for_each bind Monad_either]; [reflexivity|].
  rewrite Hx. destruct (g s x); [reflexivity|apply IH].
Qed.

Lemma reads_all line es :
  (exists vs, comprehension (fun e => FixedcolumnEntry_read e line) es = Ok vs)
  <-> Forall (fun e => reads line e = true) es.
Proof.
  split.
  - intros [vs H]. apply comprehension_Forall2 in H.
    induction H as [|e v es vs He _ IH]; constructor; [|assumption].
    unfold reads. now rewrite He.
  - intros H. apply comprehension_returns.
    eapply Forall_impl; [|exact H]. cbv beta. intros e He.
    now apply reads_ok.
Qed.

Lemma filter_length_all {A} (p : A -> bool) l :
  List.length (filter p l) = List.length l <-> Forall (fun a => p a = true) l.
Proof.
  split.
  - intros H. apply filter_length_forallb in H.
    rewrite forallb_forall in H. now apply Forall_forall.
  - intros H. now rewrite filter_all.
Qed.

(** X6: [number_of_matches] lies between 0 and the number of entries, and
    it is the number of entries exactly when [read] returns the values of
    the line. *)
Theorem probe_between r line :
  exists n,
    number_of_matches r line = Ok n /\
    0 <= n <= FORTRANReader_len r /\
    (n = FORTRANReader_len r <->
     exists vs, FORTRANReader_read r line = Ok vs).
Proof.
  exists (Z.of_nat (List.length (filter (reads line) (entries r)))).
  unfold number_of_matches, FORTRANReader_len, FORTRANReader_read.
  rewrite count_matches. split; [reflexivity|].
  pose proof (filter_length_le (reads line) (entries r)) as Hle.
  split; [lia|]. rewrite reads_all, <- filter_length_all. lia.
Qed.

Lemma consistent_cases e :
  consistent e ->
  (typespecifier e = PyStr "I" /\ convertor e = int_fn) \/
  (typespecifier e = PyStr "F" /\ convertor e = float_fn) \/
  (typespecifier e = PyStr "E" /\ convertor e = float_fn) \/
  (typespecifier e = PyStr "A" /\ convertor e = strip_fn).
Proof.
  unfold consistent, convertors. cbn [getitem].
  destruct (typespecifier e) as [| |s]; cbn [pyval_eqb]; try discriminate.
  rewrite !(String.eqb_sym _ s).
  destruct (String.eqb_spec s "I") as [->|_]; [intros [= <-]; auto|].
  destruct (String.eqb_spec s "F") as [->|_]; [intros [= <-]; auto|].
  destruct (String.eqb_spec s "E") as [->|_]; [intros [= <-]; auto 6|].
  destruct (String.eqb_spec s "A") as [->|_]; [intros [= <-]; auto 6|].
  discriminate.
Qed.

Lemma read_value_typed e line v :
  consistent e -> FixedcolumnEntry_read e line = Ok v ->
  value_of_code (type_code_of (typespecifier e)) v.
Proof.
  intros Hc. unfold FixedcolumnEntry_read, except_ValueError, convert.
  destruct (consistent_cases e Hc) as [[-> ->]|[[-> ->]|[[-> ->]|[-> ->]]]];
    cbn [type_code_of].
  - destruct (int_of_str _); [|discriminate]. intros [= <-]. reflexivity.
  - destruct (float_of_str _); [|discriminate]. intros [= <-]. now left.
  - destruct (float_of_str _); [|discriminate]. intros [= <-]. now right.
  - intros [= <-]. reflexivity.
Qed.

(** X7: when [read] returns, it returns one value for each entry of the
    reader, in order, of the type the entry asks for: an [int] for I, a
    [float] for F and E, a string for A. *)
Theorem read_values_typed f r line vs :
  FORTRANReader_init f = Ok r ->
  FORTRANReader_read r line = Ok vs ->
  Forall2 (fun e v => value_of_code (type_code_of (typespecifier e)) v)
          (entries r) vs.
Proof.
  intros H Hread. apply FORTRANReader_init_ok in H as (_ & _ & Hcons).
  apply comprehension_Forall2 in Hread. revert Hcons.
  induction Hread as [|e v es vs' He _ IH]; intros Hcons; constructor.
  - inversion Hcons; subst. now apply read_value_typed with line.
  - apply IH. now inversion Hcons.
Qed.

(** X8: [read] raises the [ValueError] of the first entry, from the left,
    that does not convert, whatever the entries after it do. *)
Theorem read_fails_fast r line es1 e es2 :
  entries r = (es1 ++ e :: es2)%list ->
  Forall (fun e' => reads line e' = true) es1 ->
  reads line e = false ->
  FORTRANReader_read r line = Raise (read_error line e).
Proof.
  intros Hes H1 He. unfold FORTRANReader_read. rewrite Hes.
  apply comprehension_app_raise; [|now apply reads_raise].
  eapply Forall_impl; [|exact H1]. cbv beta. intros a Ha. now apply reads_ok.
Qed.

Lemma entries_within f r :
  FORTRANReader_init f = Ok r ->
  Forall (fun e => 0 <= start e <= stop e /\
                   stop e <= spec_total_width (split "," f)) (entries r).
Proof.
  intros H. apply FORTRANReader_init_ok in H as (_ & Hcols & _).
  pose proof (spec_layout_within (split "," f) 0) as Hw.
  rewrite <- Hcols in Hw. rewrite Forall_map in Hw.
  eapply Forall_impl; [|exact Hw]. cbv beta.
  unfold within, col_start, col_stop, column_of. cbn [fst snd]. lia.
Qed.

(** X9: a compiled reader does not look at a line beyond the sum of the
    total widths of its descriptors: when the line is that long, text added
    after it changes neither [read] nor [number_of_matches]. *)
Theorem text_beyond_layout_ignored f r line extra :
  FORTRANReader_init f = Ok r ->
  spec_total_width (split "," f) <= Z.of_nat (String.length line) ->
  FORTRANReader_read r (line ++ extra) = FORTRANReader_read r line /\
  number_of_matches r (line ++ extra) = number_of_matches r line.
Proof.
  intros H Hlen. pose proof (entries_within f r H) as Hw.
  assert (Hsame : Forall (fun e => FixedcolumnEntry_read e (line ++ extra)
                                   = FixedcolumnEntry_read e line) (entries r)).
  { eapply Forall_impl; [|exact Hw]. cbv beta. intros e He.
    apply FixedcolumnEntry_read_append; lia. }
  split.
  - unfold FORTRANReader_read. now apply comprehension_ext.
  - unfold number_of_matches. apply for_each_ext.
    eapply Forall_impl; [|exact Hsame]. cbv beta. intros e He s.
    now rewrite He.
Qed.

(** X10: the text an entry of a compiled reader converts has at most
    [len(entry)] characters, and exactly that many when the line reaches
    the stop of the entry. *)
Theorem slice_has_entry_length f r line :
  FORTRANReader_init f = Ok r ->
  Forall (fun e =>
            0 <= FixedcolumnEntry_len e /\
            Z.of_nat (String.length (slice line (start e) (stop e)))
            <= FixedcolumnEntry_len e /\
            (stop e <= Z.of_nat (String.length line) ->
             Z.of_nat (String.length (slice line (start e) (stop e)))
             = FixedcolumnEntry_len e))
         (entries r).
Proof.
  intros H. pose proof (entries_within f r H) as Hw.
  eapply Forall_impl; [|exact Hw]. cbv beta. intros e [He _].
  unfold FixedcolumnEntry_len. rewrite (slice_length line _ _ He). lia.
Qed.

(** ** File names *)

Example posix_splitext_samples :
  posix_splitext "a/b.c/foo.tar.gz" = ("a/b.c/foo.tar", ".gz") /\
  posix_splitext "a/b.c/foo" = ("a/b.c/foo", "") /\
  posix_splitext ".bashrc" = (".bashrc", "") /\
  posix_splitext "dir/..rc.txt" = ("dir/..rc", ".txt") /\
  posix_splitext "foo." = ("foo", ".") /\
  posix_splitext "" = ("", "").
Proof. repeat split. Qed.

Example posix_split_samples :
  posix_split "/usr/lib/x.py" = ("/usr/lib", "x.py") /\
  posix_split "x.py" = ("", "x.py") /\
  posix_split "/x" = ("/", "x") /\
  posix_split "a//b" = ("a", "b") /\
  posix_split "a/" = ("a", "").
Proof. repeat split. Qed.

Example filename_samples :
  filename posix_splitext "foo.pdb" (Some "crd") false = "foo.crd" /\
  filename posix_splitext "foo.pdb" (Some ".crd") false = "foo.crd" /\
  filename posix_splitext "foo.pdb" (Some "crd") true = "foo.pdb" /\
  filename posix_splitext "foo" (Some "crd") true = "foo.crd" /\
  filename posix_splitext "foo.pdb" None false = "foo.pdb".
Proof. repeat split. Qed.

Example greedy_splitext_sample :
  greedy_splitext posix_splitext posix_split 20 "/data/run/md.trr.tar.gz"
  = Some ("md", ".trr.tar.gz").
Proof. reflexivity. Qed.

Lemma rfind_bounds c s : -1 <= rfind c s < Z.of_nat (String.length s).
Proof.
  induction s as [|d s IH]; cbn [rfind String.length]; [lia|].
  destruct (0 <=? rfind c s) eqn:H; [lia|].
  destruct (Ascii.eqb d c); lia.
Qed.

Lemma substring_all s : substring 0 (String.length s) s = s.
Proof.
  induction s as [|c s IH]; cbn [String.length substring]; [reflexivity|].
  now rewrite IH.
Qed.

Lemma substring_split s : forall n,
  (n <= String.length s)%nat ->
  substring 0 n s ++ substring n (String.length s - n) s = s.
Proof.
  induction s as [|c s IH]; intros [|n] H.
  - reflexivity.
  - cbn [String.length] in H. lia.
  - rewrite Nat.sub_0_r, substring_all. reflexivity.
  - cbn [String.length] in *. cbn [substring append Nat.sub]. f_equal.
    apply IH. lia.
Qed.

(** [p[:i] + p[i:]] is [p]. *)
Lemma slice_split p i :
  0 <= i <= Z.of_nat (String.length p) ->
  slice p 0 i ++ slice p i (Z.of_nat (String.length p)) = p.
Proof.
  intros H. unfold slice, slice_bound.
  replace (0 <? 0) with false by reflexivity.
  replace (i <? 0) with false by (symmetry; apply Z.ltb_ge; lia).
  replace (Z.of_nat (String.length p) <? 0) with false
    by (symmetry; apply Z.ltb_ge; lia).
  rewrite !Z.min_id, Z.min_l, Z.min_l by lia.
  rewrite Z.sub_0_r. change (Z.to_nat 0) with O.
  replace (Z.to_nat (Z.of_nat (String.length p) - i))
    with (String.length p - Z.to_nat i)%nat by lia.
  apply substring_split. lia.
Qed.

(** [posixpath.splitext] keeps what the library documents. *)
Lemma posix_splitext_join : splits_in_two posix_splitext.
Proof.
  intros p. unfold posix_splitext.
  pose proof (rfind_bounds "/" p) as Hsep.
  pose proof (rfind_bounds "." p) as Hdot.
  destruct (rfind "/" p <? rfind "." p) eqn:Hlt; cbn [andb];
    [|apply append_nil_r].
  destruct (beyond_leading_dots _ p _); cbn [fst snd]; [|apply append_nil_r].
  apply Z.ltb_lt in Hlt. apply slice_split. lia.
Qed.

Lemma with_extsep_dotted e :
  prefix extsep e = false -> with_extsep (extsep ++ e) = with_extsep e.
Proof.
  intros H. unfold with_extsep. rewrite H. cbn [negb].
  destruct e; reflexivity || (cbn; now rewrite Ascii.eqb_refl).
Qed.

(** X11: [filename] returns the name itself when no extension is given;
    it appends the extension to a name that has none, whatever [keep] is;
    it leaves a name that has an extension as it is when [keep] is true;
    and the leading dot of the extension may be written or left out. *)
Theorem filename_extension splitext name e keep :
  splits_in_two splitext ->
  filename splitext name None keep = name /\
  (snd (splitext name) = EmptyString ->
   filename splitext name (Some e) keep = name ++ with_extsep e) /\
  (snd (splitext name) <> EmptyString ->
   filename splitext name (Some e) true = name) /\
  filename splitext name (Some e) false = fst (splitext name) ++ with_extsep e /\
  (prefix extsep e = false ->
   filename splitext name (Some (extsep ++ e)) keep
   = filename splitext name (Some e) keep).
Proof.
  intros Hlaw. pose proof (Hlaw name) as Hname. unfold filename.
  destruct (splitext name) as [root origext]. cbn [fst snd] in *.
  split; [reflexivity|]. split; [|split; [|split]].
  - intros ->. rewrite append_nil_r in Hname. now subst.
  - intros Hne. destruct origext; [congruence|reflexivity].
  - now rewrite orb_true_r.
  - intros H. now rewrite (with_extsep_dotted e H).
Qed.

Lemma greedy_loop_returns splitext :
  splits_in_two splitext ->
  forall fuel root extension,
    (String.length root < fuel)%nat ->
    exists root' exts,
      greedy_loop splitext fuel root extension
        = Some (root', exts ++ extension) /\
      root' ++ exts = root /\
      snd (splitext root') = EmptyString.
Proof.
  intros Hlaw. induction fuel as [|fuel IH]; intros root extension Hlen;
    [lia|].
  cbn [greedy_loop]. pose proof (Hlaw root) as Hroot.
  destruct (splitext root) as [root1 ext] eqn:Hsplit. cbn [fst snd] in Hroot.
  destruct ext as [|c ext].
  - rewrite append_nil_r in Hroot. subst root1.
    exists root, EmptyString. rewrite append_nil_r, Hsplit. auto.
  - assert (Hshort : (String.length root1 < fuel)%nat).
    { rewrite <- Hroot, length_append in Hlen. cbn [String.length] in Hlen.
      lia. }
    destruct (IH root1 (String c ext ++ extension) Hshort)
      as (root' & exts & Hloop & Hjoin & Hend).
    exists root', (exts ++ String c ext). rewrite Hloop. repeat split.
    + now rewrite append_assoc.
    + now rewrite <- append_assoc, Hjoin.
    + exact Hend.
Qed.

Lemma greedy_loop_more_fuel splitext : forall n root extension y,
  greedy_loop splitext n root extension = Some y ->
  forall m, (n <= m)%nat -> greedy_loop splitext m root extension = Some y.
Proof.
  induction n as [|n IH]; intros root extension y Hy m Hm; [discriminate|].
  destruct m as [|m]; [lia|]. cbn [greedy_loop] in *.
  destruct (splitext root) as [root1 ext]. destruct ext; [assumption|].
  apply (IH _ _ _ Hy). lia.
Qed.

(** X12: [greedy_splitext] comes to its [break] after at most as many
    rounds as the last component of the path has characters, plus one; the
    root and the extension it returns make up that last component, the
    directory being dropped; and the root has no extension left. *)
Theorem greedy_splitext_returns splitext split_path p :
  splits_in_two splitext ->
  exists root extension,
    (forall fuel,
       (String.length (snd (split_path p)) < fuel)%nat ->
       greedy_splitext splitext split_path fuel p = Some (root, extension)) /\
    root ++ extension = snd (split_path p) /\
    snd (splitext root) = EmptyString.
Proof.
  intros Hlaw. unfold greedy_splitext.
  destruct (split_path p) as [path tail]. cbn [snd].
  destruct (greedy_loop_returns splitext Hlaw (S (String.length tail)) tail
              EmptyString (Nat.lt_succ_diag_r _))
    as (root & exts & Hloop & Hjoin & Hend).
  rewrite append_nil_r in Hloop.
  exists root, exts. split; [|auto].
  intros fuel Hfuel. apply (greedy_loop_more_fuel _ _ _ _ _ Hloop). lia.
Qed.

End Reading.

(** ** The statements at concrete inputs *)

Lemma entry_count_witness :
  exists r,
    FORTRANReader_init "2I10,2X,A8" = Ok r /\
    FORTRANReader_len r = spec_entry_count (split "," "2I10,2X,A8").
Proof.
  eexists. split; [reflexivity|].
  apply (entry_count_is_sum_of_repeats "2I10,2X,A8"). reflexivity.
Defined.

Lemma entries_in_column_order_witness :
  exists r,
    FORTRANReader_init "2I10,2X,A8" = Ok r /\
    map column_of (entries r) = spec_layout 0 (split "," "2I10,2X,A8") /\
    Forall (fun e => 0 <= start e <= stop e) (entries r) /\
    StronglySorted (fun e1 e2 => stop e1 <= start e2) (entries r) /\
    (Forall (fun tok => 0 < token_width tok) (split "," "2I10,2X,A8") ->
     Forall (fun e => start e < stop e) (entries r)).
Proof.
  eexists. split; [reflexivity|].
  apply (entries_in_column_order "2I10,2X,A8"). reflexivity.
Defined.

(** The claim C3 as stated fails on a descriptor of width 0: the entry of
    "A0" has [start = stop = 0]. *)
Lemma zero_width_entry :
  exists r e,
    FORTRANReader_init "A0" = Ok r /\ In e (entries r) /\
    ~ (0 <= start e < stop e).
Proof.
  eexists.
  exists {| start := 0; stop := 0; typespecifier := PyStr "A";
            convertor := strip_fn |}.
  split; [reflexivity|]. split; [left; reflexivity|].
  cbn [start stop]. intros [_ H]. discriminate H.
Defined.

Lemma one_malformed_field_witness :
  FORTRANReader_init "I3,A2" = Ok sample_I3_A2 /\
  malformed_numeric Z float_of_int_text "abcde" sample_I3 /\
  number_of_matches Z float_of_int_text sample_I3_A2 "abcde"
    = Ok (FORTRANReader_len sample_I3_A2 - 1) /\
  FORTRANReader_read Z float_of_int_text sample_I3_A2 "abcde"
    = Raise (read_error "abcde" sample_I3).
Proof.
  assert (H1 : Forall (fun e => reads Z float_of_int_text "abcde" e = true) [])
    by constructor.
  assert (H2 : Forall (fun e => reads Z float_of_int_text "abcde" e = true)
                      [sample_A2])
    by (repeat constructor).
  assert (H3 : malformed_numeric Z float_of_int_text "abcde" sample_I3)
    by (left; split; reflexivity).
  split; [reflexivity|]. split; [exact H3|].
  exact (one_malformed_field Z float_of_int_text sample_I3_A2 "abcde"
           [] sample_I3 [sample_A2] eq_refl H1 H2 H3).
Defined.

(** The claim C7 as stated fails on "I10", whose missing decimals are [None]
    and not 0; and "I", a typed descriptor without a width, does not parse
    to a field of width 0. *)
Lemma missing_decimals_stay_None :
  (exists d, parse_FORTRAN_format "I10" = Ok d /\
             Descriptor.decimals d = PyNone /\
             Descriptor.decimals d <> PyInt 0) /\
  parse_FORTRAN_format "I" = Raise TypeError.
Proof.
  split; [|reflexivity].
  eexists. split; [reflexivity|]. split; [reflexivity|discriminate].
Defined.

Lemma missing_captures_witness :
  exists m d,
    descriptor_match "x" = Some m /\
    parse_FORTRAN_format "x" = Ok d /\
    (FORTRAN_format_match (upper "x") = None ->
     Descriptor.repeat d = PyInt 1) /\
    (g_decimals m = None -> Descriptor.decimals d = PyNone) /\
    (g_length m = None ->
     Descriptor.format d = PyStr "X" /\ Descriptor.length d = PyInt 1) /\
    (forall w, g_length m = Some w -> Descriptor.format d <> PyStr "X" ->
               Descriptor.length d = PyInt (number w)).
Proof.
  eexists. eexists. split; [reflexivity|]. split; [reflexivity|].
  apply (missing_captures "x"); reflexivity.
Defined.

Lemma skip_descriptor_witness :
  exists d,
    parse_FORTRAN_format "3X5" = Ok d /\
    Descriptor.format d = PyStr "X" /\
    Descriptor.length d = PyInt 1 /\
    Descriptor.repeat d = PyInt (token_repeat "3X5") /\
    forall start entries,
      layout_step (start, entries) d = Ok (start + token_repeat "3X5", entries).
Proof.
  eexists. split; [reflexivity|]. split; [reflexivity|].
  apply (skip_descriptor "3X5"); reflexivity.
Defined.

Lemma repr_shows_format_witness :
  exists r,
    FORTRANReader_init "2I10,2X,A8" = Ok r /\
    FORTRANReader_repr r = "FORTRANReader(" ++ "2I10,2X,A8" ++ ")".
Proof.
  eexists. split; [reflexivity|].
  apply (repr_shows_format "2I10,2X,A8"). reflexivity.
Defined.

(** The claim C9 as stated fails on "A8": [repr] of its reader is not "A8". *)
Lemma repr_is_not_the_format :
  exists r,
    FORTRANReader_init "A8" = Ok r /\
    FORTRANReader_repr r = "FORTRANReader(A8)" /\
    FORTRANReader_repr r <> "A8".
Proof.
  eexists. split; [reflexivity|]. split; [reflexivity|discriminate].
Defined.

Lemma string_fields_witness :
  exists r,
    FORTRANReader_init "A3,2X,a2" = Ok r /\
    Forall (fun tok => token_type_code tok = Some "A"%char \/
                       token_type_code tok = Some "X"%char)
           (split "," "A3,2X,a2") /\
    FORTRANReader_read Z float_of_int_text r " ab"
    = Ok (map (fun e => VStr Z (strip (slice " ab" (start e) (stop e))))
              (entries r)) /\
    Forall (fun e => stripped (slice " ab" (start e) (stop e))
                              (strip (slice " ab" (start e) (stop e))))
           (entries r) /\
    number_of_matches Z float_of_int_text r " ab" = Ok (FORTRANReader_len r).
Proof.
  eexists. split; [reflexivity|].
  assert (H : Forall (fun tok => token_type_code tok = Some "A"%char \/
                                 token_type_code tok = Some "X"%char)
                     (split "," "A3,2X,a2"))
    by (repeat constructor; (left; reflexivity) || (right; reflexivity)).
  split; [exact H|].
  exact (proj2 (string_fields_always_convert Z float_of_int_text)
               "A3,2X,a2" _ " ab" eq_refl H).
Defined.

(** ** [iterable] and [asiterable] *)

Example iterable_samples :
  iterable (obj_str "abc") = Ok false /\
  iterable (obj_list []) = Ok true /\
  iterable (obj_other true (Raise TypeError)) = Ok true /\
  iterable (obj_other false (Raise TypeError)) = Ok false /\
  iterable (obj_other false (Ok 3)) = Ok true /\
  iterable (obj_other false (Raise KeyError)) = Raise KeyError.
Proof. repeat split. Qed.

(** X13: when [asiterable] returns, what it returns is iterable, and
    applying [asiterable] again changes nothing; an object that is
    iterable is returned as it is, and an object that is not, a string in
    particular, is returned as the only item of a list. *)
Theorem asiterable_iterable obj o :
  asiterable obj = Ok o ->
  iterable o = Ok true /\
  asiterable o = Ok o /\
  (iterable obj = Ok true -> o = obj) /\
  (iterable obj = Ok false -> o = obj_list [obj]) /\
  (forall s, obj = obj_str s -> o = obj_list [obj_str s]).
Proof.
  unfold asiterable. cbn [bind ret Monad_either].
  destruct (iterable obj) as [e|[|]] eqn:Hobj; [discriminate| |];
    intros [= <-]; cbn [negb].
  - rewrite Hobj. cbn [negb]. repeat split; try discriminate.
    intros s ->. discriminate.
  - cbn [iterable ret Monad_either negb]. repeat split; try discriminate.
    now intros s ->.
Qed.

Lemma asiterable_witness :
  asiterable (obj_str "abc") = Ok (obj_list [obj_str "abc"]) /\
  iterable (obj_list [obj_str "abc"]) = Ok true /\
  asiterable (obj_list [obj_str "abc"]) = Ok (obj_list [obj_str "abc"]).
Proof.
  split; [reflexivity|].
  destruct (asiterable_iterable (obj_str "abc") (obj_list [obj_str "abc"])
              eq_refl) as (H1 & H2 & _).
  split; assumption.
Defined.

(** ** Opening files *)

Import AnyOpen.

Lemma still_open_app tr1 : forall opened tr2,
  still_open opened (tr1 ++ tr2)%list
  = still_open (still_open opened tr1) tr2.
Proof.
  induction tr1 as [|ev tr1 IH]; intros opened tr2; [reflexivity|].
  cbn [app still_open]. destruct ev as [h ds m [e|s]|s a|s [e|u]]; apply IH.
Qed.

Lemma still_open_closed s :
  still_open [s] [ev_close s (inr tt)] = [].
Proof. cbn. now rewrite Nat.eqb_refl. Qed.

Lemma handler_eqb_refl h : handler_eqb h h = true.
Proof. now destruct h. Qed.

(** Case analysis on the answers of the environment, in the order of the
    calls. *)
Ltac answered t :=
  lazymatch t with
  | context [env_open] => fail
  | context [env_readline] => fail
  | context [env_close] => fail
  | _ => idtac
  end.

Ltac next_answer :=
  match goal with
  | |- context [env_open ?e ?t ?h ?d ?m] =>
      answered t; destruct (env_open e t h d m) as [[]|?] eqn:?
  | |- context [env_readline ?e ?t ?s] =>
      answered t; destruct (env_readline e t s) as [[]|[]] eqn:?
  | |- context [env_close ?e ?t ?s] =>
      answered t; destruct (env_close e t s) as [[]|[]] eqn:?
  end;
  cbn [fst snd].

(** A run of [_get_stream]: the events it adds. *)
Lemma get_stream_run env ds h mode tr :
  exists new,
    snd (_get_stream env ds h mode tr) = (tr ++ new)%list /\
    attempts new = [h] /\
    (forall s, fst (_get_stream env ds h mode tr) = inr (Some s) ->
               exists before,
                 new = (before ++ [ev_open h ds "r" (inr s)])%list) /\
    (readline_raises_IOError env -> close_returns env ->
     match fst (_get_stream env ds h mode tr) with
     | inr (Some s) => still_open [] new = [s]
     | inr None => still_open [] new = []
     | inl e => still_open [] new = [] /\ e <> IOError
     end).
Proof.
  unfold _get_stream, except_IOError, call_open, call_readline, call_close.
  cbn [bind ret raise catch Monad_io Exception_io].
  repeat next_answer.
  all: eexists; (split; [rewrite <- ?app_assoc; reflexivity|]).
  all: split; [cbn [app attempts attempt]; rewrite ?handler_eqb_refl; reflexivity|].
  all: split; [let x := fresh "x" in let Hx := fresh "Hx" in
               intros x Hx; try discriminate Hx; injection Hx as <-;
               rewrite ?app_assoc; eexists; reflexivity|].
  all: intros Hreadline Hclose.
  all: repeat match goal with
       | H : env_close _ _ _ = inl _ |- _ =>
           rewrite Hclose in H; discriminate H
       | H : env_readline _ _ _ = inl _ |- _ =>
           apply Hreadline in H; try discriminate H; clear H
       end.
  all: cbn [app still_open filter negb]; rewrite ?Nat.eqb_refl;
       cbn [app still_open filter negb]; try split; try reflexivity;
       discriminate.
Qed.


Lemma handler_eqb_eq h h' : handler_eqb h h' = true -> h = h'.
Proof. destruct h, h'; (reflexivity || discriminate). Qed.

Lemma attempt_twice h hs : attempt h (attempt h hs) = attempt h hs.
Proof.
  destruct hs as [|h' hs]; cbn [attempt].
  - now rewrite handler_eqb_refl.
  - destruct (handler_eqb h h') eqn:E; cbn [attempt].
    + now rewrite E.
    + now rewrite handler_eqb_refl.
Qed.

Lemma attempts_app tr1 tr2 :
  attempts (tr1 ++ tr2)%list
  = fold_right attempt (attempts tr2) (attempts tr1).
Proof.
  induction tr1 as [|ev tr1 IH]; [reflexivity|].
  destruct ev as [h ds m a|s a|s a]; cbn [app attempts]; try exact IH.
  rewrite IH.
  destruct (attempts tr1) as [|h' hs]; cbn [attempt fold_right];
    [reflexivity|].
  destruct (handler_eqb h h') eqn:E; cbn [fold_right]; [|reflexivity].
  apply handler_eqb_eq in E. subst h'. apply attempt_twice.
Qed.

(** The run of [_get_stream] as a result and the events added. *)
Lemma get_stream_cases env ds h mode tr :
  exists r new,
    _get_stream env ds h mode tr = (r, (tr ++ new)%list) /\
    attempts new = [h] /\
    (forall s, r = inr (Some s) ->
               exists before,
                 new = (before ++ [ev_open h ds "r" (inr s)])%list) /\
    (readline_raises_IOError env -> close_returns env ->
     match r with
     | inr (Some s) => still_open [] new = [s]
     | inr None => still_open [] new = []
     | inl e => still_open [] new = [] /\ e <> IOError
     end).
Proof.
  destruct (get_stream_run env ds h mode tr) as (new & H1 & H2 & H3 & H4).
  destruct (_get_stream env ds h mode tr) as [r tr'] eqn:E.
  cbn [fst snd] in *. exists r, new. subst tr'. auto.
Qed.

(** The loop of [anyopen] over its three extensions. *)
Lemma probe_run env ds mode tr :
  exists r new,
    probe env ds mode ["bz2"; "gz"; ""] tr = (r, (tr ++ new)%list) /\
    (attempts new = [BZ2File] \/ attempts new = [BZ2File; gzip_open] \/
     attempts new = [BZ2File; gzip_open; file]) /\
    (r = inr None -> attempts new = [BZ2File; gzip_open; file]) /\
    (forall s, r = inr (Some s) ->
               exists before h,
                 new = (before ++ [ev_open h ds "r" (inr s)])%list) /\
    (readline_raises_IOError env -> close_returns env ->
     match r with
     | inr (Some s) => still_open [] new = [s]
     | inr None => still_open [] new = []
     | inl e => still_open [] new = [] /\ e <> IOError
     end).
Proof.
  cbn -[_get_stream].
  destruct (get_stream_cases env ds BZ2File mode tr)
    as (r1 & new1 & E1 & A1 & L1 & N1).
  rewrite E1.
  destruct r1 as [e|[s|]]; cbn beta iota.
  { exists (inl e), new1.
    split; [reflexivity|]. split; [auto|]. split; [discriminate|].
    split; [discriminate|exact N1]. }
  { exists (inr (Some s)), new1.
    split; [reflexivity|]. split; [auto|]. split; [discriminate|].
    split; [|exact N1].
    intros s' Hs'. destruct (L1 s' Hs') as [before ->]. eauto. }
  destruct (get_stream_cases env ds gzip_open mode (tr ++ new1)%list)
    as (r2 & new2 & E2 & A2 & L2 & N2).
  rewrite E2, <- app_assoc.
  assert (A12 : attempts (new1 ++ new2)%list = [BZ2File; gzip_open])
    by (rewrite attempts_app, A1, A2; reflexivity).
  assert (N12 : readline_raises_IOError env -> close_returns env ->
                still_open [] (new1 ++ new2)%list = still_open [] new2)
    by (intros Hr Hc; rewrite still_open_app, (N1 Hr Hc); reflexivity).
  destruct r2 as [e|[s|]]; cbn beta iota.
  { exists (inl e), (new1 ++ new2)%list.
    split; [reflexivity|]. split; [auto|]. split; [discriminate|].
    split; [discriminate|].
    intros Hr Hc. rewrite (N12 Hr Hc). apply (N2 Hr Hc). }
  { exists (inr (Some s)), (new1 ++ new2)%list.
    split; [reflexivity|]. split; [auto|]. split; [discriminate|]. split.
    - intros s' Hs'. destruct (L2 s' Hs') as [before ->].
      exists (new1 ++ before)%list, gzip_open. now rewrite app_assoc.
    - intros Hr Hc. rewrite (N12 Hr Hc). apply (N2 Hr Hc). }
  destruct (get_stream_cases env ds file mode (tr ++ new1 ++ new2)%list)
    as (r3 & new3 & E3 & A3 & L3 & N3).
  rewrite E3, <- !app_assoc.
  assert (A123 : attempts (new1 ++ new2 ++ new3)%list
                 = [BZ2File; gzip_open; file])
    by (rewrite attempts_app, A1, attempts_app, A2, A3; reflexivity).
  assert (N123 : readline_raises_IOError env -> close_returns env ->
                 still_open [] (new1 ++ new2 ++ new3)%list
                 = still_open [] new3).
  { intros Hr Hc. rewrite app_assoc, still_open_app, (N12 Hr Hc).
    specialize (N2 Hr Hc). cbn beta iota in N2. now rewrite N2. }
  exists r3, (new1 ++ new2 ++ new3)%list.
  split; [destruct r3 as [e|[s|]]; reflexivity|].
  split; [auto|]. split; [auto|]. split.
  - intros s' Hs'. destruct (L3 s' Hs') as [before ->].
    exists (new1 ++ new2 ++ before)%list, file. now rewrite <- !app_assoc.
  - intros Hr Hc. rewrite (N123 Hr Hc). apply (N3 Hr Hc).
Qed.


(** [anyopen] for reading from a file name. *)
Lemma anyopen_read_run env splitext p mode tr :
  prefix "r" mode = true ->
  exists r new,
    anyopen env splitext (path p) mode tr = (r, (tr ++ new)%list) /\
    (attempts new = [BZ2File] \/ attempts new = [BZ2File; gzip_open] \/
     attempts new = [BZ2File; gzip_open; file]) /\
    (forall s f, r = inr (s, f) ->
       f = path p /\
       exists before h,
         new = (before ++ [ev_open h (path p) "r" (inr s)])%list) /\
    (readline_raises_IOError env -> close_returns env ->
     (r = inl IOError -> attempts new = [BZ2File; gzip_open; file]) /\
     match r with
     | inr (s, _) => still_open [] new = [s]
     | inl _ => still_open [] new = []
     end).
Proof.
  intros Hmode. unfold anyopen. rewrite Hmode.
  cbn [stream_with bind Monad_io].
  destruct (probe_run env (path p) mode tr)
    as (r & new & E & A3 & ANone & L & N).
  rewrite E.
  destruct r as [e|[s|]]; cbn [ret raise Monad_io Exception_io].
  - exists (inl e), new. split; [reflexivity|]. split; [exact A3|].
    split; [discriminate|]. intros Hr Hc. destruct (N Hr Hc) as [N1 N2].
    split; [|exact N1]. intros [= ->]. now elim N2.
  - exists (inr (s, path p)), new. split; [reflexivity|].
    split; [exact A3|]. split.
    + intros s' f [= <- <-]. split; [reflexivity|]. now apply L.
    + intros Hr Hc. split; [discriminate|]. apply (N Hr Hc).
  - exists (inl IOError), new. split; [reflexivity|]. split; [exact A3|].
    split; [discriminate|]. intros Hr Hc. split; [auto|]. apply (N Hr Hc).
Qed.

Lemma slice_tail c rest :
  slice (String c rest) 1 (Z.of_nat (String.length (String c rest))) = rest.
Proof.
  unfold slice, slice_bound. cbn [String.length].
  replace (1 <? 0) with false by reflexivity.
  destruct (Z.of_nat (S (String.length rest)) <? 0) eqn:E;
    [apply Z.ltb_lt in E; lia|].
  rewrite Z.min_id, Z.min_l by lia.
  replace (Z.to_nat (Z.of_nat (S (String.length rest)) - 1))
    with (String.length rest) by lia.
  change (Z.to_nat 1) with 1%nat. cbn [substring]. apply substring_all.
Qed.

(** [handlers[ext]] after the extension is cut down to bz2, gz or nothing:
    never a [KeyError]. *)
Lemma handler_of_compression ext :
  handler_of handlers (compression_of ext)
  = ret (handler_for_extension ext).
Proof.
  assert (table : forall t,
            handler_of handlers
              (if negb (String.eqb t "bz2" || String.eqb t "gz")%bool
               then EmptyString else t)
            = ret (if String.eqb t "bz2" then BZ2File
                   else if String.eqb t "gz" then gzip_open else file)).
  { intros t. destruct (String.eqb t "bz2") eqn:E1.
    - apply String.eqb_eq in E1. subst t. reflexivity.
    - destruct (String.eqb t "gz") eqn:E2.
      + apply String.eqb_eq in E2. subst t. reflexivity.
      + reflexivity. }
  unfold compression_of, handler_for_extension.
  destruct ext as [|c rest]; [reflexivity|].
  cbn [prefix]. destruct (ascii_dec "." c) as [<-|Hc].
  - replace (prefix "" rest) with true by now destruct rest.
    rewrite slice_tail, table.
    cbn [String.eqb Ascii.eqb Bool.eqb andb orb].
    now rewrite !Bool.orb_false_r.
  - rewrite table.
    assert (Ascii.eqb c "." = false) as Hdot
      by (apply Ascii.eqb_neq; congruence).
    cbn [String.eqb]. rewrite Hdot. reflexivity.
Qed.

Lemma prefix_w_not_r mode : prefix "w" mode = true -> prefix "r" mode = false.
Proof.
  destruct mode as [|c mode]; [discriminate|]. cbn [prefix].
  destruct (ascii_dec "w" c) as [<-|]; [|discriminate].
  reflexivity.
Qed.

(** ** The properties of [_get_stream], [anyopen] and [openany] *)


(** X15: a stream [anyopen] returns for a file name and a mode that starts
    with 'r' was opened by the last call it made, with mode 'r' and not
    with the mode asked for, and the file name returned is the one
    given. *)
Theorem anyopen_reopens_for_reading env splitext p mode tr s f :
  prefix "r" mode = true ->
  fst (anyopen env splitext (path p) mode tr) = inr (s, f) ->
  f = path p /\
  exists before h,
    snd (anyopen env splitext (path p) mode tr)
    = (tr ++ before ++ [ev_open h (path p) "r" (inr s)])%list.
Proof.
  intros Hmode.
  destruct (anyopen_read_run env splitext p mode tr Hmode)
    as (r & new & E & _ & L & _).
  rewrite E. cbn [fst snd]. intros Hr.
  destruct (L s f Hr) as (Hf & before & h & ->). eauto.
Qed.

(** X16: for reading from a file name, [anyopen] calls [_get_stream]
    with [bz2.BZ2File], then with [gzip.open], then with [file], each one
    only when the one before returned [None]: it stops at the first that
    gives a stream or raises, and nothing is tried after it.  Its result is
    that of the last call, with [IOError] in place of a last [None]; so,
    when [readline] raises nothing but [IOError] and [close] returns, it
    ends with [IOError] only after all three have returned [None]. *)
Theorem anyopen_probing_order env splitext p mode tr :
  prefix "r" mode = true ->
  let try1 := _get_stream env (path p) BZ2File mode tr in
  let try2 := _get_stream env (path p) gzip_open mode (snd try1) in
  let try3 := _get_stream env (path p) file mode (snd try2) in
  let last := if returned_None try1
              then if returned_None try2 then try3 else try2
              else try1 in
  anyopen env splitext (path p) mode tr
  = (stream_or_IOError (path p) (fst last), snd last) /\
  (exists new,
     snd last = (tr ++ new)%list /\
     attempts new
     = if returned_None try1
       then if returned_None try2
            then [BZ2File; gzip_open; file] else [BZ2File; gzip_open]
       else [BZ2File]) /\
  (readline_raises_IOError env -> close_returns env ->
   fst (anyopen env splitext (path p) mode tr) = inl IOError ->
   returned_None try1 = true /\ returned_None try2 = true /\
   returned_None try3 = true).
Proof.
  intros Hmode. cbv zeta. unfold anyopen. rewrite Hmode.
  cbn -[_get_stream returned_None stream_or_IOError].
  destruct (get_stream_cases env (path p) BZ2File mode tr)
    as (r1 & new1 & E1 & A1 & _ & N1).
  rewrite !E1. unfold returned_None. cbn [fst snd].
  destruct r1 as [e1|[s1|]]; cbn [fst snd stream_or_IOError].
  { split; [reflexivity|]. split; [exists new1; auto|].
    intros Hr Hc [= ->]. now destruct (N1 Hr Hc). }
  { split; [reflexivity|]. split; [exists new1; auto|].
    intros _ _ H. discriminate H. }
  destruct (get_stream_cases env (path p) gzip_open mode (tr ++ new1)%list)
    as (r2 & new2 & E2 & A2 & _ & N2).
  rewrite !E2. cbn [fst snd].
  assert (A12 : attempts (new1 ++ new2)%list = [BZ2File; gzip_open])
    by (rewrite attempts_app, A1, A2; reflexivity).
  destruct r2 as [e2|[s2|]]; cbn [fst snd stream_or_IOError].
  { split; [reflexivity|].
    split; [exists (new1 ++ new2)%list; now rewrite <- app_assoc|].
    intros Hr Hc [= ->]. now destruct (N2 Hr Hc). }
  { split; [reflexivity|].
    split; [exists (new1 ++ new2)%list; now rewrite <- app_assoc|].
    intros _ _ H. discriminate H. }
  destruct (get_stream_cases env (path p) file mode
              ((tr ++ new1) ++ new2)%list)
    as (r3 & new3 & E3 & A3 & _ & N3).
  rewrite !E3. cbn [fst snd].
  assert (A123 : attempts (new1 ++ new2 ++ new3)%list
                 = [BZ2File; gzip_open; file])
    by (rewrite attempts_app, A1, attempts_app, A2, A3; reflexivity).
  split; [now destruct r3 as [e3|[s3|]]|].
  split; [exists (new1 ++ new2 ++ new3)%list; now rewrite <- !app_assoc|].
  intros Hr Hc. specialize (N3 Hr Hc).
  destruct r3 as [e3|[s3|]]; cbn [fst]; try discriminate; [|auto].
  intros [= ->]. now destruct N3.
Qed.

(** X17: when [readline] raises nothing but [IOError] and [close] returns,
    [anyopen] for reading leaves open the stream it returns and no other,
    and no stream at all when it raises. *)
Theorem anyopen_read_no_leak env splitext p mode tr :
  prefix "r" mode = true ->
  readline_raises_IOError env -> close_returns env ->
  exists new,
    snd (anyopen env splitext (path p) mode tr) = (tr ++ new)%list /\
    match fst (anyopen env splitext (path p) mode tr) with
    | inr (s, _) => still_open [] new = [s]
    | inl _ => still_open [] new = []
    end.
Proof.
  intros Hmode Hr Hc.
  destruct (anyopen_read_run env splitext p mode tr Hmode)
    as (r & new & E & _ & _ & N).
  rewrite E. cbn [fst snd]. exists new. split; [reflexivity|].
  apply (N Hr Hc).
Qed.

(** X18: for writing to a file name, [anyopen] makes one call: it opens
    the file with the mode asked for, with [bz2.BZ2File] for the extension
    bz2, [gzip.open] for gz and [file] for every other extension; the
    lookup in [handlers] never fails, and what the call raises or returns
    is what [anyopen] raises or returns. *)
Theorem anyopen_write_opens_once env splitext p mode tr :
  prefix "w" mode = true ->
  exists answer,
    anyopen env splitext (path p) mode tr
    = (match answer with
       | inl e => inl e
       | inr s => inr (s, path p)
       end,
       (tr ++ [ev_open (handler_for_extension (snd (splitext p)))
                       (path p) mode answer])%list).
Proof.
  intros Hmode. unfold anyopen.
  rewrite (prefix_w_not_r mode Hmode), Hmode.
  cbn [stream_with splitext_of bind ret Monad_io].
  rewrite handler_of_compression. cbn [ret Monad_io]. unfold call_open.
  exists (env_open env tr (handler_for_extension (snd (splitext p)))
                   (path p) mode).
  now destruct (env_open env tr _ (path p) mode).
Qed.

(** X19: given an object with the methods of a stream, [anyopen] opens and
    closes nothing, in every mode; what it returns is the object itself,
    with its name between brackets as the file name. *)
Theorem anyopen_leaves_given_stream env splitext s mode tr :
  (has_next s || has_readline s)%bool = true -> has_write s = true ->
  snd (anyopen env splitext (object s) mode tr) = tr /\
  forall s' f,
    fst (anyopen env splitext (object s) mode tr) = inr (s', f) ->
    s' = s /\ exists n, name s = Some n /\ f = path ("(" ++ n ++ ")").
Proof.
  intros Hread Hwrite. unfold anyopen, stream_with, name_in_brackets.
  rewrite Hread, Hwrite.
  destruct (prefix "r" mode); [|destruct (prefix "w" mode)];
    destruct (name s) as [n|];
    cbn [bind ret raise Monad_io Exception_io fst snd];
    (split; [reflexivity|]); intros s' f; try discriminate;
    intros [= <- <-]; eauto.
Qed.

(** X20: [openany] calls [close] on the stream of [anyopen] once, right
    after the body, whether the body returns or raises; the result is the
    one of the body unless [close] raises; and when [anyopen] raises, the
    body does not run. *)
Theorem openany_closes_after_body {A} env splitext ds mode
        (body : stream -> io A) tr :
  match anyopen env splitext ds mode tr with
  | (inr (s, _), tr1) =>
      exists answer,
        openany env splitext ds mode body tr
        = (match answer with
           | inl e => inl e
           | inr _ => fst (body s tr1)
           end,
           (snd (body s tr1) ++ [ev_close s answer])%list)
  | (inl e, tr1) => openany env splitext ds mode body tr = (inl e, tr1)
  end.
Proof.
  unfold openany. cbn [bind Monad_io].
  destruct (anyopen env splitext ds mode tr) as [[e|[s f]] tr1];
    [reflexivity|].
  cbn [fst]. unfold try_finally, call_close.
  destruct (body s tr1) as [r tr2]. cbn [fst snd].
  exists (env_close env tr2 s). now destruct (env_close env tr2 s).
Qed.

(** X21: when [readline] raises nothing but [IOError], [close] returns and
    the body opens and closes nothing, [openany] for reading from a file
    name leaves no stream open, whether [anyopen] or the body returns or
    raises. *)
Theorem openany_leaves_nothing_open {A} env splitext p mode
        (body : stream -> io A) tr :
  prefix "r" mode = true ->
  readline_raises_IOError env -> close_returns env ->
  leaves_streams_alone body ->
  exists new,
    snd (openany env splitext (path p) mode body tr) = (tr ++ new)%list /\
    still_open [] new = [].
Proof.
  intros Hmode Hr Hc Hbody.
  destruct (anyopen_read_run env splitext p mode tr Hmode)
    as (r & new & E & _ & _ & N).
  destruct (N Hr Hc) as [_ Hopen]. clear N.
  unfold openany. cbn [bind Monad_io]. rewrite E.
  destruct r as [e|[s f]]; [exists new; split; [reflexivity|exact Hopen]|].
  cbn [fst]. unfold try_finally, call_close.
  destruct (Hbody s (tr ++ new)%list) as (events & Hev & Hquiet).
  destruct (body s (tr ++ new)%list) as [rb tr2]. cbn [snd] in Hev.
  subst tr2. rewrite (Hc _ s).
  exists (new ++ events ++ [ev_close s (inr tt)])%list.
  split; [now rewrite <- !app_assoc|].
  rewrite !still_open_app, Hopen, Hquiet. apply still_open_closed.
Qed.


(** ** The further statements at concrete inputs *)

Lemma parse_returns_typed_dict_witness :
  exists d,
    parse_FORTRAN_format "2F10.3" = Ok d /\
    exists r l c,
      Descriptor.repeat d = PyInt r /\ 0 <= r /\
      Descriptor.length d = PyInt l /\ 0 <= l /\
      Descriptor.format d = PyStr (String c EmptyString) /\
      is_format_letter c = true /\
      Descriptor.totallength d = Some (PyInt (r * l)) /\
      (Descriptor.decimals d = PyNone \/
       exists k, Descriptor.decimals d = PyInt k /\ 0 <= k).
Proof.
  eexists. split; [reflexivity|].
  apply (parse_returns_typed_dict "2F10.3"). reflexivity.
Defined.

Lemma layout_width_witness :
  FORTRANReader_init "I3,A2" = Ok sample_I3_A2 /\
  Forall (fun e => 0 <= start e /\
                   stop e <= spec_total_width (split "," "I3,A2"))
         (entries sample_I3_A2) /\
  sum_Z (map FixedcolumnEntry_len (entries sample_I3_A2))
  + spec_skipped (split "," "I3,A2")
  = spec_total_width (split "," "I3,A2").
Proof.
  split; [reflexivity|].
  apply (layout_width "I3,A2" sample_I3_A2). reflexivity.
Defined.

Lemma read_values_typed_witness :
  exists vs,
    FORTRANReader_init "I3,A2" = Ok sample_I3_A2 /\
    FORTRANReader_read Z float_of_int_text sample_I3_A2 "123ab" = Ok vs /\
    Forall2 (fun e v => value_of_code Z (type_code_of (typespecifier e)) v)
            (entries sample_I3_A2) vs.
Proof.
  eexists. split; [reflexivity|]. split; [reflexivity|].
  apply (read_values_typed Z float_of_int_text "I3,A2" sample_I3_A2 "123ab");
    reflexivity.
Defined.

Lemma read_fails_fast_witness :
  entries sample_I3_A2 = ([] ++ sample_I3 :: [sample_A2])%list /\
  reads Z float_of_int_text "abcde" sample_I3 = false /\
  FORTRANReader_read Z float_of_int_text sample_I3_A2 "abcde"
  = Raise (read_error "abcde" sample_I3).
Proof.
  split; [reflexivity|]. split; [reflexivity|].
  apply (read_fails_fast Z float_of_int_text sample_I3_A2 "abcde"
           [] sample_I3 [sample_A2]);
    [reflexivity|constructor|reflexivity].
Defined.

Lemma text_beyond_layout_ignored_witness :
  FORTRANReader_init "I3,A2" = Ok sample_I3_A2 /\
  spec_total_width (split "," "I3,A2") <= Z.of_nat (String.length "123ab") /\
  FORTRANReader_read Z float_of_int_text sample_I3_A2 ("123ab" ++ "xyz")
  = FORTRANReader_read Z float_of_int_text sample_I3_A2 "123ab" /\
  number_of_matches Z float_of_int_text sample_I3_A2 ("123ab" ++ "xyz")
  = number_of_matches Z float_of_int_text sample_I3_A2 "123ab".
Proof.
  split; [reflexivity|]. split; [vm_compute; discriminate|].
  apply (text_beyond_layout_ignored Z float_of_int_text "I3,A2" sample_I3_A2
           "123ab" "xyz");
    [reflexivity|vm_compute; discriminate].
Defined.

Lemma slice_has_entry_length_witness :
  FORTRANReader_init "I3,A2" = Ok sample_I3_A2 /\
  Forall (fun e =>
            0 <= FixedcolumnEntry_len e /\
            Z.of_nat (String.length (slice "1234" (start e) (stop e)))
            <= FixedcolumnEntry_len e /\
            (stop e <= Z.of_nat (String.length "1234") ->
             Z.of_nat (String.length (slice "1234" (start e) (stop e)))
             = FixedcolumnEntry_len e))
         (entries sample_I3_A2).
Proof.
  split; [reflexivity|].
  apply (slice_has_entry_length "I3,A2" sample_I3_A2 "1234"). reflexivity.
Defined.

Lemma filename_extension_witness :
  filename posix_splitext "foo.pdb" None true = "foo.pdb" /\
  (snd (posix_splitext "foo.pdb") = EmptyString ->
   filename posix_splitext "foo.pdb" (Some "crd") true
   = "foo.pdb" ++ with_extsep "crd") /\
  (snd (posix_splitext "foo.pdb") <> EmptyString ->
   filename posix_splitext "foo.pdb" (Some "crd") true = "foo.pdb") /\
  filename posix_splitext "foo.pdb" (Some "crd") false
  = fst (posix_splitext "foo.pdb") ++ with_extsep "crd" /\
  (prefix extsep "crd" = false ->
   filename posix_splitext "foo.pdb" (Some (extsep ++ "crd")) true
   = filename posix_splitext "foo.pdb" (Some "crd") true).
Proof.
  apply (filename_extension posix_splitext "foo.pdb" "crd" true).
  exact posix_splitext_join.
Defined.

Lemma greedy_splitext_returns_witness :
  exists root extension,
    (forall fuel,
       (String.length (snd (posix_split "/data/run/md.trr.tar.gz")) < fuel)%nat ->
       greedy_splitext posix_splitext posix_split fuel
                       "/data/run/md.trr.tar.gz"
       = Some (root, extension)) /\
    root ++ extension = snd (posix_split "/data/run/md.trr.tar.gz") /\
    snd (posix_splitext root) = EmptyString.
Proof.
  apply (greedy_splitext_returns posix_splitext posix_split
           "/data/run/md.trr.tar.gz").
  exact posix_splitext_join.
Defined.

Lemma sample_env_readline : readline_raises_IOError sample_env.
Proof.
  intros tr s e. cbn [sample_env env_readline].
  destruct (name s); [discriminate|]. now intros [= <-].
Qed.

Lemma sample_env_close : close_returns sample_env.
Proof. intros tr s. reflexivity. Qed.


Lemma anyopen_reopens_for_reading_witness :
  exists s f,
    prefix "r" "rb" = true /\
    fst (anyopen sample_env posix_splitext (path "a") "rb" []) = inr (s, f) /\
    f = path "a" /\
    exists before h,
      snd (anyopen sample_env posix_splitext (path "a") "rb" [])
      = ([] ++ before ++ [ev_open h (path "a") "r" (inr s)])%list.
Proof.
  eexists. eexists. split; [reflexivity|]. split; [reflexivity|].
  apply (anyopen_reopens_for_reading sample_env posix_splitext "a" "rb" []);
    reflexivity.
Defined.

Lemma anyopen_probing_order_witness :
  prefix "r" "rb" = true /\
  (* every function opens and reads the file: only the first is tried *)
  (let try1 := _get_stream plain_env (path "a") BZ2File "rb" [] in
   let try2 := _get_stream plain_env (path "a") gzip_open "rb" (snd try1) in
   let try3 := _get_stream plain_env (path "a") file "rb" (snd try2) in
   let last := if returned_None try1
               then if returned_None try2 then try3 else try2
               else try1 in
   returned_None try1 = false /\
   anyopen plain_env posix_splitext (path "a") "rb" []
   = (stream_or_IOError (path "a") (fst last), snd last) /\
   (exists new,
      snd last = ([] ++ new)%list /\
      attempts new
      = if returned_None try1
        then if returned_None try2
             then [BZ2File; gzip_open; file] else [BZ2File; gzip_open]
        else [BZ2File]) /\
   (readline_raises_IOError plain_env -> close_returns plain_env ->
    fst (anyopen plain_env posix_splitext (path "a") "rb" []) = inl IOError ->
    returned_None try1 = true /\ returned_None try2 = true /\
    returned_None try3 = true)) /\
  (* no function opens the file: all three are tried, then [IOError] *)
  (let try1 := _get_stream missing_env (path "a") BZ2File "rb" [] in
   let try2 := _get_stream missing_env (path "a") gzip_open "rb" (snd try1) in
   let try3 := _get_stream missing_env (path "a") file "rb" (snd try2) in
   let last := if returned_None try1
               then if returned_None try2 then try3 else try2
               else try1 in
   fst (anyopen missing_env posix_splitext (path "a") "rb" []) = inl IOError /\
   anyopen missing_env posix_splitext (path "a") "rb" []
   = (stream_or_IOError (path "a") (fst last), snd last) /\
   (exists new,
      snd last = ([] ++ new)%list /\
      attempts new
      = if returned_None try1
        then if returned_None try2
             then [BZ2File; gzip_open; file] else [BZ2File; gzip_open]
        else [BZ2File]) /\
   (readline_raises_IOError missing_env -> close_returns missing_env ->
    fst (anyopen missing_env posix_splitext (path "a") "rb" [])
    = inl IOError ->
    returned_None try1 = true /\ returned_None try2 = true /\
    returned_None try3 = true)).
Proof.
  split; [reflexivity|]. split.
  - split; [reflexivity|].
    apply (anyopen_probing_order plain_env posix_splitext "a" "rb" []).
    reflexivity.
  - split; [reflexivity|].
    apply (anyopen_probing_order missing_env posix_splitext "a" "rb" []).
    reflexivity.
Defined.

Lemma anyopen_read_no_leak_witness :
  prefix "r" "r" = true /\
  readline_raises_IOError sample_env /\ close_returns sample_env /\
  exists new,
    snd (anyopen sample_env posix_splitext (path "a") "r" [])
    = ([] ++ new)%list /\
    match fst (anyopen sample_env posix_splitext (path "a") "r" []) with
    | inr (s, _) => still_open [] new = [s]
    | inl _ => still_open [] new = []
    end.
Proof.
  split; [reflexivity|].
  split; [exact sample_env_readline|]. split; [exact sample_env_close|].
  apply (anyopen_read_no_leak sample_env posix_splitext "a" "r" []);
    [reflexivity|exact sample_env_readline|exact sample_env_close].
Defined.

Lemma anyopen_write_opens_once_witness :
  prefix "w" "wb" = true /\
  exists answer,
    anyopen sample_env posix_splitext (path "out.gz") "wb" []
    = (match answer with
       | inl e => inl e
       | inr s => inr (s, path "out.gz")
       end,
       ([] ++ [ev_open (handler_for_extension (snd (posix_splitext "out.gz")))
                       (path "out.gz") "wb" answer])%list).
Proof.
  split; [reflexivity|].
  apply (anyopen_write_opens_once sample_env posix_splitext "out.gz" "wb" []).
  reflexivity.
Defined.

Lemma anyopen_leaves_given_stream_witness :
  let s := {| stream_id := 0; has_next := true; has_readline := true;
              has_write := true; name := Some "log" |} in
  (has_next s || has_readline s)%bool = true /\ has_write s = true /\
  snd (anyopen sample_env posix_splitext (object s) "r" []) = [] /\
  forall s' f,
    fst (anyopen sample_env posix_splitext (object s) "r" []) = inr (s', f) ->
    s' = s /\ exists n, name s = Some n /\ f = path ("(" ++ n ++ ")").
Proof.
  intros s. split; [reflexivity|]. split; [reflexivity|].
  apply (anyopen_leaves_given_stream sample_env posix_splitext s "r" []);
    reflexivity.
Defined.

Lemma call_readline_leaves_streams_alone env :
  leaves_streams_alone (call_readline env).
Proof.
  intros s tr. unfold call_readline. cbn [snd].
  eexists. split; [reflexivity|]. reflexivity.
Qed.

Lemma openany_leaves_nothing_open_witness :
  prefix "r" "r" = true /\
  readline_raises_IOError sample_env /\ close_returns sample_env /\
  leaves_streams_alone (call_readline sample_env) /\
  exists new,
    snd (openany sample_env posix_splitext (path "a") "r"
                 (call_readline sample_env) [])
    = ([] ++ new)%list /\
    still_open [] new = [].
Proof.
  split; [reflexivity|].
  split; [exact sample_env_readline|]. split; [exact sample_env_close|].
  split; [exact (call_readline_leaves_streams_alone sample_env)|].
  apply (openany_leaves_nothing_open sample_env posix_splitext "a" "r"
           (call_readline sample_env) []);
    [reflexivity|exact sample_env_readline|exact sample_env_close
    |exact (call_readline_leaves_streams_alone sample_env)].
Defined.


(** ** [FixedcolumnEntry] built directly *)

(** X22: the constructor of [FixedcolumnEntry] returns an entry exactly for
    the type specifiers 'I', 'F', 'E' and 'A', in upper case: the entry
    holds the arguments as given, without a check that start is at most
    stop, so that its length is [stop - start] and may be negative; every
    other type specifier, 'X', a lower case letter, a number or [None],
    ends in a [KeyError]. *)
Theorem FixedcolumnEntry_init_accepts a b ts :
  (In ts [PyStr "I"; PyStr "F"; PyStr "E"; PyStr "A"] ->
   exists e,
     FixedcolumnEntry_init a b ts = Ok e /\
     start e = a /\ stop e = b /\ typespecifier e = ts /\
     FixedcolumnEntry_len e = b - a /\
     getitem convertors ts = Ok (convertor e)) /\
  (~ In ts [PyStr "I"; PyStr "F"; PyStr "E"; PyStr "A"] ->
   FixedcolumnEntry_init a b ts = Raise KeyError).
Proof.
  split.
  - intros [<-|[<-|[<-|[<-|[]]]]]; eexists; (split; [reflexivity|]);
      repeat split.
  - intros Hno. unfold FixedcolumnEntry_init, convertors.
    destruct ts as [|z|s]; try reflexivity.
    cbn [getitem pyval_eqb].
    repeat match goal with
           | |- context [String.eqb ?k s] =>
               let E := fresh "E" in
               destruct (String.eqb k s) eqn:E;
               [apply String.eqb_eq in E; subst s; elim Hno; cbn; tauto|]
           end.
    reflexivity.
Qed.
